(** * Collatz-seeded backoff: a shallow embedding of the schedule engine

    The development follows the two Python sources of the repository:

    - [src/collatz_backoff/core.py]: the packaged engine ([BackoffConfig],
      [CollatzBackoff] and the module-level wrapper), embedded in [Module Core];
    - [collatz_backoff.py]: the stand-alone script with the older,
      floating-point schedule, embedded in [Module Script].

    Python integers are unbounded, so they are [Z]; [//] and [%] are floor
    division and floor modulus, which is what [Z.div] and [Z.modulo] compute
    for a non-zero divisor; [|] and [>>] on integers are [Z.lor] and
    [Z.shiftr].  Python floats are IEEE-754 binary64 values, modelled by the
    Standard Library's [spec_float] at precision 53 and maximal exponent 1024.
    Exceptions are values of a small error monad. *)

From Stdlib Require Import ZArith List Bool Lia String Znumtheory.
From Stdlib Require Import Floats.SpecFloat.
Import ListNotations.

Local Open Scope Z_scope.

(** ** Exceptions and the error monad *)

Inductive exn : Type :=
| ValueError (msg : string)
| OverflowError (msg : string)
| ZeroDivisionError.

Inductive result (A : Type) : Type :=
| Ok (a : A)
| Raise (e : exn).

Arguments Ok {A} a.
Arguments Raise {A} e.

Definition bind {A B : Type} (m : result A) (f : A -> result B) : result B :=
  match m with
  | Ok a => f a
  | Raise e => Raise e
  end.

Notation "x <- m ;; k" := (bind m (fun x => k))
  (at level 61, m at next level, right associativity).
Notation "' pat <- m ;; k" := (bind m (fun x => match x with pat => k end))
  (at level 61, pat pattern, m at next level, right associativity).

(** ** Python numbers *)

Module Py.

(** A binary64 float. *)
Definition float := spec_float.

Definition prec : Z := 53.
Definition emax : Z := 1024.

Definition fmul : float -> float -> float := SFmul prec emax.
Definition fadd : float -> float -> float := SFadd prec emax.
Definition fdiv : float -> float -> float := SFdiv prec emax.
Definition flt : float -> float -> bool := SFltb.
Definition fle : float -> float -> bool := SFleb.
Definition feq : float -> float -> bool := SFeqb.

Definition fzero : float := S754_zero false.

(** [a % b] on integers: floor modulus, [ZeroDivisionError] on [b = 0]. *)
Definition mod_ (a b : Z) : result Z :=
  if b =? 0 then Raise ZeroDivisionError else Ok (a mod b).

(** Conversion of an integer operand to a float, as done by mixed
    arithmetic: round to nearest even, [OverflowError] past the largest
    finite double. *)
Definition float_of_int (z : Z) : result float :=
  match binary_normalize prec emax z 0 false with
  | S754_infinity _ => Raise (OverflowError "int too large to convert to float")
  | f => Ok f
  end.

(** [round(x)] with one argument: the nearest integer, ties to even;
    infinities raise [OverflowError], NaN raises [ValueError]. *)
Definition round_half_even (m : positive) (e : Z) : Z :=
  match e with
  | Z0 => Zpos m
  | Zpos p => Zpos m * 2 ^ Zpos p
  | Zneg p =>
      let d := 2 ^ Zpos p in
      let q := Zpos m / d in
      let r := Zpos m mod d in
      match 2 * r ?= d with
      | Lt => q
      | Gt => q + 1
      | Eq => if Z.even q then q else q + 1
      end
  end.

Definition round (x : float) : result Z :=
  match x with
  | S754_zero _ => Ok 0
  | S754_finite s m e =>
      Ok (if s then - round_half_even m e else round_half_even m e)
  | S754_infinity _ =>
      Raise (OverflowError "cannot convert float infinity to integer")
  | S754_nan => Raise (ValueError "cannot convert float NaN to integer")
  end.

(** A value that is either an [int] or a [float], for the one expression
    of the source whose type depends on its argument ([2 ** retry_k]). *)
Inductive num : Type :=
| Int (z : Z)
| Float (f : float).

(** [2 ** k]: an integer for [k >= 0]; for [k < 0] Python computes the
    float power [2.0 ** float(k)], which is the exact power of two while
    it is representable (down to the least subnormal, [2 ** -1074]) and
    [0.0] below. *)
Definition pow2 (k : Z) : result num :=
  if 0 <=? k then Ok (Int (2 ^ k))
  else
    _ <- float_of_int k ;;
    Ok (Float (if -1074 <=? k
               then binary_normalize prec emax 1 k false
               else fzero)).

(** [x * y] with a float on the left. *)
Definition fmul_num (x : float) (y : num) : result float :=
  match y with
  | Int z => yf <- float_of_int z ;; Ok (fmul x yf)
  | Float yf => Ok (fmul x yf)
  end.

Definition fmul_int (x : float) (z : Z) : result float :=
  fmul_num x (Int z).

(** [z / y] with an integer on the left and a float on the right. In
    Python a zero divisor raises; the divisors of the source are the
    non-zero literals [1000.0] and [1_000_000.0]. *)
Definition int_div_float (z : Z) (y : float) : result float :=
  zf <- float_of_int z ;;
  match y with
  | S754_zero _ => Raise ZeroDivisionError
  | _ => Ok (fdiv zf y)
  end.

(** [min(a, b)] on floats: [b] when [b < a], otherwise [a]. *)
Definition fmin (a b : float) : float := if flt b a then b else a.

(** The float literals of the source. *)
Definition f1000 : float := S754_finite false 8796093022208000 (-43).
Definition f1000000 : float := S754_finite false 8589934592000000 (-33).

End Py.

(** ** [src/collatz_backoff/core.py] *)

Module Core.

Definition collatz_step (n : Z) : Z :=
  if n mod 2 =? 0 then n / 2 else (3 * n + 1) / 2.

(** The body of [for _ in range(k): n = collatz_step(n)], one iteration
    per unit of [fuel]. *)
Fixpoint collatz_loop (fuel : nat) (n : Z) : Z :=
  match fuel with
  | O => n
  | S fuel' => collatz_loop fuel' (collatz_step n)
  end.

(** [range(k)] is empty for [k <= 0], hence [Z.to_nat]. *)
Definition collatz_iter (seed k : Z) : Z :=
  collatz_loop (Z.to_nat k) seed.

Record BackoffConfig : Type := {
  base_seconds : Py.float;
  slot_ms : Z;
  slots_M : Z;
  collatz_seed : Z;
  cap_seconds : Py.float
}.

Definition validate (self : BackoffConfig) : result unit :=
  if Py.fle (base_seconds self) Py.fzero
  then Raise (ValueError "base_seconds must be > 0")
  else if slot_ms self <=? 0
  then Raise (ValueError "slot_ms must be > 0")
  else if slots_M self <=? 1
  then Raise (ValueError "slots_M must be > 1")
  else if Py.fle (cap_seconds self) Py.fzero
  then Raise (ValueError "cap_seconds must be > 0")
  else Ok tt.

(** The engine object: its only attribute is the configuration. *)
Record CollatzBackoff : Type := { cfg : BackoffConfig }.

(** [CollatzBackoff.__init__] *)
Definition init (c : BackoffConfig) : result CollatzBackoff :=
  _ <- validate c ;;
  Ok {| cfg := c |}.

Definition affine_params (self : CollatzBackoff) (k : Z) : result (Z * Z) :=
  let M := slots_M (cfg self) in
  let n := collatz_iter (collatz_seed (cfg self)) (k + 1) in
  a <- Py.mod_ (Z.lor n 1) M ;;
  let a := if a =? 0 then 1 else a in
  b <- Py.mod_ (Z.shiftr n 3) M ;;
  let a := if negb (Z.gcd a M =? 1) then 1 else a in
  Ok (a, b).

Definition offset_slot (self : CollatzBackoff) (node_id retry_k : Z)
  : result Z :=
  let M := slots_M (cfg self) in
  '(a, b) <- affine_params self retry_k ;;
  Py.mod_ (a * node_id + b) M.

(** The three integer quantities of [wait_micros], in evaluation order. *)
Definition base_us (self : CollatzBackoff) (retry_k : Z) : result Z :=
  p <- Py.pow2 retry_k ;;
  x <- Py.fmul_num (base_seconds (cfg self)) p ;;
  y <- Py.fmul_int x 1000000 ;;
  Py.round y.

Definition jitter_us (self : CollatzBackoff) (node_id retry_k : Z)
  : result Z :=
  s <- offset_slot self node_id retry_k ;;
  Ok (s * slot_ms (cfg self) * 1000).

Definition cap_us (self : CollatzBackoff) : result Z :=
  y <- Py.fmul_int (cap_seconds (cfg self)) 1000000 ;;
  Py.round y.

Definition wait_micros (self : CollatzBackoff) (node_id retry_k : Z)
  : result Z :=
  base <- base_us self retry_k ;;
  jitter <- jitter_us self node_id retry_k ;;
  cap <- cap_us self ;;
  Ok (Z.min cap (base + jitter)).

Definition wait_seconds (self : CollatzBackoff) (node_id retry_k : Z)
  : result Py.float :=
  us <- wait_micros self node_id retry_k ;;
  Py.int_div_float us Py.f1000000.

Definition collatz_seeded_backoff_seconds
    (node_id retry_k : Z) (c : BackoffConfig) : result Py.float :=
  b <- init c ;;
  wait_seconds b node_id retry_k.

End Core.

(** ** [collatz_backoff.py]: the stand-alone script *)

Module Script.

Definition collatz_step (n : Z) : Z :=
  if n mod 2 =? 0 then n / 2 else (3 * n + 1) / 2.

Fixpoint collatz_loop (fuel : nat) (n : Z) : Z :=
  match fuel with
  | O => n
  | S fuel' => collatz_loop fuel' (collatz_step n)
  end.

Definition collatz_iter (seed k : Z) : Z :=
  collatz_loop (Z.to_nat k) seed.

Definition affine_params_from_collatz (k seed M : Z) : result (Z * Z) :=
  let n := collatz_iter seed (k + 1) in
  a <- Py.mod_ (Z.lor n 1) M ;;
  let a := if a =? 0 then 1 else a in
  b <- Py.mod_ (Z.shiftr n 3) M ;;
  Ok (a, b).

Definition collatz_perm_offset (node_id k M seed : Z) : result Z :=
  '(a, b) <- affine_params_from_collatz k seed M ;;
  Py.mod_ (a * node_id + b) M.

(** The script's own dataclass: the same five fields, no [validate]. *)
Record BackoffConfig : Type := {
  base_seconds : Py.float;
  slot_ms : Z;
  slots_M : Z;
  collatz_seed : Z;
  cap_seconds : Py.float
}.

Definition collatz_seeded_backoff_seconds
    (node_id retry_k : Z) (cfg : BackoffConfig) : result Py.float :=
  offset <- collatz_perm_offset node_id retry_k
              (slots_M cfg) (collatz_seed cfg) ;;
  jitter <- Py.int_div_float (offset * slot_ms cfg) Py.f1000 ;;
  p <- Py.pow2 retry_k ;;
  x <- Py.fmul_num (base_seconds cfg) p ;;
  let wait := Py.fadd x jitter in
  Ok (Py.fmin (cap_seconds cfg) wait).

(** The configuration with the same field values, as the script's
    function sees a configuration object built by the package. *)
Definition of_core (c : Core.BackoffConfig) : BackoffConfig :=
  {| base_seconds := Core.base_seconds c;
     slot_ms := Core.slot_ms c;
     slots_M := Core.slots_M c;
     collatz_seed := Core.collatz_seed c;
     cap_seconds := Core.cap_seconds c |}.

End Script.

(** ** Concrete configurations *)

(** The float literals [0.05] and [10.0]
    ([0x1.999999999999ap-5] and [0x1.4p+3]). *)
Definition f0_05 : Py.float := S754_finite false 7205759403792794 (-57).
Definition f10 : Py.float := S754_finite false 5629499534213120 (-49).

(** [BackoffConfig()] with every field at its default. *)
Definition default_config : Core.BackoffConfig :=
  {| Core.base_seconds := f0_05;
     Core.slot_ms := 1;
     Core.slots_M := 1024;
     Core.collatz_seed := 27;
     Core.cap_seconds := f10 |}.

Definition default_engine : Core.CollatzBackoff :=
  {| Core.cfg := default_config |}.

(** ** The reference derivation of the specification

    Section 4.1 and 4.2 of the specification, written after its words:
    [iterate] applies [step] exactly [k] times, and [params] is the four-step
    derivation of the multiplier and the additive term. *)

Module Reference.

Definition step (n : Z) : Z :=
  if Z.even n then n / 2 else (3 * n + 1) / 2.

Definition iterate (seed : Z) (k : nat) : Z := Nat.iter k step seed.

Definition params (M seed k : Z) : Z * Z :=
  let n := iterate seed (Z.to_nat (k + 1)) in
  let a := Z.lor n 1 mod M in
  let a := if a =? 0 then 1 else a in
  let b := Z.shiftr n 3 mod M in
  let a := if Z.gcd a M =? 1 then a else 1 in
  (a, b).

End Reference.

(** ** Auxiliary definitions for the statements *)

(** The odd-forced residue of [affine_params], before the invertibility
    check, and the multiplier after it. *)
Definition odd_residue (M n : Z) : Z :=
  let a := Z.lor n 1 mod M in if a =? 0 then 1 else a.

Definition multiplier (M n : Z) : Z :=
  let a := odd_residue M n in if negb (Z.gcd a M =? 1) then 1 else a.

Definition shift_term (M n : Z) : Z := Z.shiftr n 3 mod M.

(** A float that is not a negative finite number: the class that validation
    leaves for [base_seconds] and [cap_seconds] and that multiplication by
    such a float preserves. *)
Definition not_negative (x : Py.float) : bool :=
  match x with
  | S754_finite true _ _ => false
  | _ => true
  end.

(** The check that [base_us] at step [k] is [50000 * 2 ^ k], run below on
    the default base delay for every step up to the last one before the
    float product overflows. *)
Definition base_us_doubles (b : Core.CollatzBackoff) (k : nat) : bool :=
  match Core.base_us b (Z.of_nat k) with
  | Ok B => B =? 50000 * 2 ^ Z.of_nat k
  | Raise _ => false
  end.

(** The default configuration with another modulus and seed. *)
Definition config_with (M seed : Z) : Core.BackoffConfig :=
  {| Core.base_seconds := f0_05;
     Core.slot_ms := 1;
     Core.slots_M := M;
     Core.collatz_seed := seed;
     Core.cap_seconds := f10 |}.

(** ** Text

    A Python [str] is modelled by a Rocq [string], that is, text over the
    code points below 256.  On these, [\d] and [int] know the ten ASCII
    digits only and [str.isspace] is the set listed in [isspace]. *)

From Stdlib Require Import Ascii Decimal DecimalString DecimalN.

Module Text.

Definition ord (c : ascii) : Z := Z.of_N (N_of_ascii c).

Definition isdecimal (c : ascii) : bool := (48 <=? ord c) && (ord c <=? 57).

Definition isspace (c : ascii) : bool :=
  let n := ord c in
  ((9 <=? n) && (n <=? 13)) || ((28 <=? n) && (n <=? 32))
  || (n =? 133) || (n =? 160).

(** [s.strip()]: whitespace removed at both ends. *)
Fixpoint lstrip (s : string) : string :=
  match s with
  | String c r => if isspace c then lstrip r else s
  | EmptyString => EmptyString
  end.

Fixpoint rstrip (s : string) : string :=
  match s with
  | String c r =>
      match rstrip r with
      | EmptyString => if isspace c then EmptyString else String c EmptyString
      | r' => String c r'
      end
  | EmptyString => EmptyString
  end.

Definition strip (s : string) : string := rstrip (lstrip s).

(** The value of a run of decimal digits, most significant first. *)
Fixpoint digits_value (acc : Z) (d : string) : Z :=
  match d with
  | String c r => digits_value (10 * acc + (ord c - 48)) r
  | EmptyString => acc
  end.

(** The interpreter's limit on the digits of an integer string
    ([sys.get_int_max_str_digits()]: 0 for none, else at least 640; 4300
    unless configured): conversions of more digits raise [ValueError]. *)
Definition exceeds_limit (max_str_digits : Z) (ndigits : nat) : bool :=
  (640 <? Z.of_nat ndigits) && (0 <? max_str_digits)
  && (max_str_digits <? Z.of_nat ndigits).

Definition limit_error : exn :=
  ValueError "Exceeds the limit for integer string conversion".

Definition literal_error : exn :=
  ValueError "invalid literal for int() with base 10".

(** [int(d)] on a non-empty run of digits. *)
Definition int_of_digits (max_str_digits : Z) (d : string) : result Z :=
  if exceeds_limit max_str_digits (String.length d)
  then Raise limit_error
  else Ok (digits_value 0 d).

(** The digits of an integer literal after its sign: digits, with single
    underscores allowed between two digits.  Returns the digits without
    the underscores, or [None] on any other text. *)
Fixpoint literal_digits (after_digit : bool) (s : string) : option string :=
  match s with
  | EmptyString => if after_digit then Some EmptyString else None
  | String c r =>
      if isdecimal c then
        match literal_digits true r with
        | Some d => Some (String c d)
        | None => None
        end
      else if (ord c =? 95) && after_digit then literal_digits false r
      else None
  end.

(** [int(v)] on text without surrounding whitespace. *)
Definition int_of_text (max_str_digits : Z) (v : string) : result Z :=
  let '(negative, body) :=
    match v with
    | String c r =>
        if ord c =? 45 then (true, r)
        else if ord c =? 43 then (false, r)
        else (false, v)
    | EmptyString => (false, v)
    end in
  match literal_digits false body with
  | None => Raise literal_error
  | Some d =>
      n <- int_of_digits max_str_digits d ;;
      Ok (if negative then - n else n)
  end.

(** [str(n)] for [n >= 0]. *)
Definition str_of_nonneg (n : Z) : string :=
  NilEmpty.string_of_uint (N.to_uint (Z.to_N n)).

End Text.

(** ** The helpers of [core.py] (the script has the same three) *)

Module Helpers.

(** [-(\d+)$] at the current position.  [\d+] takes the longest run of
    digits; giving digits back cannot help, since [$] only holds at the end
    of the text or before a line feed that ends it. *)
Fixpoint digits_span (s : string) : string * string :=
  match s with
  | String c r =>
      if Text.isdecimal c
      then let '(d, t) := digits_span r in (String c d, t)
      else (EmptyString, s)
  | EmptyString => (EmptyString, EmptyString)
  end.

Definition at_end (t : string) : bool :=
  match t with
  | EmptyString => true
  | String c EmptyString => Text.ord c =? 10
  | _ => false
  end.

Definition match_suffix (s : string) : option string :=
  match s with
  | String c r =>
      if Text.ord c =? 45 then
        let '(d, t) := digits_span r in
        match d with
        | EmptyString => None
        | _ => if at_end t then Some d else None
        end
      else None
  | EmptyString => None
  end.

(** [_ORD_RE.match(s)], returning [group(1)].  The leading [.*] is greedy:
    it first takes the next character (any but a line feed) and gives it
    back only when the rest cannot match. *)
Fixpoint ORD_RE_match (s : string) : option string :=
  match s with
  | String c r =>
      match (if Text.ord c =? 10 then None else ORD_RE_match r) with
      | Some g => Some g
      | None => match_suffix s
      end
  | EmptyString => match_suffix EmptyString
  end.

(** The body of the fallback loop over the characters. *)
Fixpoint hash_loop (s : string) (h : Z) : Z :=
  match s with
  | String ch r => hash_loop r (Z.land (h * 131 + Text.ord ch) 4294967295)
  | EmptyString => h
  end.

Definition statefulset_ordinal (max_str_digits : Z) (pod_name : string)
  : result Z :=
  match ORD_RE_match pod_name with
  | Some g => Text.int_of_digits max_str_digits g
  | None =>
      Ok (hash_loop (match pod_name with
                     | EmptyString => "unknown"%string
                     | _ => pod_name
                     end) 0)
  end.

(** [env_int], with the environment as a lookup function.  Only
    [ValueError] is caught. *)
Definition env_int (max_str_digits : Z) (environ : string -> option string)
    (key : string) (default : Z) : result Z :=
  let v := Text.strip (match environ key with
                       | Some x => x
                       | None => EmptyString
                       end) in
  match v with
  | EmptyString => Ok default
  | _ =>
      match Text.int_of_text max_str_digits v with
      | Ok n => Ok n
      | Raise (ValueError _) => Ok default
      | Raise e => Raise e
      end
  end.

End Helpers.

(** ** [tests/bijection.py]: the helper of the property tests *)

Module Tests.

Definition is_power_of_two (x : Z) : bool :=
  (0 <? x) && (Z.land x (x - 1) =? 0).

End Tests.

(** ** [scripts/benchmark_jitter.py] *)

Module Bench.

(** [range(n)] *)
Definition range (n : Z) : list Z := map Z.of_nat (seq 0 (Z.to_nat n)).

(** A list comprehension whose element expression may raise. *)
Fixpoint comprehension {A B : Type} (f : A -> result B) (l : list A)
  : result (list B) :=
  match l with
  | [] => Ok []
  | x :: l' =>
      y <- f x ;;
      ys <- comprehension f l' ;;
      Ok (y :: ys)
  end.

(** [len(set(xs))] *)
Definition distinct (xs : list Z) : Z :=
  Z.of_nat (List.length (nodup Z.eq_dec xs)).

(** [d[k] = v] on a dict kept in insertion order. *)
Fixpoint dict_set (d : list (Z * Z)) (k v : Z) : list (Z * Z) :=
  match d with
  | [] => [(k, v)]
  | (k', v') :: d' =>
      if k' =? k then (k, v) :: d' else (k', v') :: dict_set d' k v
  end.

(** The loop of [run_collatz] over the remaining steps. *)
Fixpoint run_collatz_loop (b : Core.CollatzBackoff) (replicas : Z)
    (steps : list Z) (collisions : list (Z * Z)) : result (list (Z * Z)) :=
  match steps with
  | [] => Ok collisions
  | k :: steps' =>
      offsets <- comprehension (fun i => Core.offset_slot b i k)
                   (range replicas) ;;
      run_collatz_loop b replicas steps'
        (dict_set collisions k (replicas - distinct offsets))
  end.

Definition run_collatz (slots_M replicas steps seed : Z)
  : result (list (Z * Z)) :=
  b <- Core.init (config_with slots_M seed) ;;
  run_collatz_loop b replicas (range steps) [].

End Bench.

(** ** Auxiliary definitions for the statements about text *)

Fixpoint string_forall (P : ascii -> bool) (s : string) : bool :=
  match s with
  | String c r => P c && string_forall P r
  | EmptyString => true
  end.

Definition all_digits : string -> bool := string_forall Text.isdecimal.
Definition all_space : string -> bool := string_forall Text.isspace.
Definition no_space : string -> bool :=
  string_forall (fun c => negb (Text.isspace c)).
Definition no_line_feed : string -> bool :=
  string_forall (fun c => negb (Text.ord c =? 10)).
Definition no_hyphen : string -> bool :=
  string_forall (fun c => negb (Text.ord c =? 45)).

Definition hyphen : string := String "-" EmptyString.
Definition line_feed : string := String "010" EmptyString.

(** The name of the pod with the given ordinal in a StatefulSet. *)
Definition pod_name (prefix : string) (ordinal : Z) : string :=
  (prefix ++ hyphen ++ Text.str_of_nonneg ordinal)%string.

(** ** Integer true division

    The right-hand side of the unit-consistency property as the
    specification writes it, [wait_micros / 1_000_000] on two integers:
    Python's true division, the double nearest to the exact quotient (ties
    to even), [ZeroDivisionError] on a zero divisor and [OverflowError] when
    the quotient is too large for a double. *)

Definition int_as_float (z : Z) : Py.float :=
  match z with
  | Z0 => S754_zero false
  | Zpos p => S754_finite false p 0
  | Zneg p => S754_finite true p 0
  end.

Definition int_truediv (a b : Z) : result Py.float :=
  if b =? 0 then Raise ZeroDivisionError
  else
    match a with
    | Z0 => Ok (S754_zero (b <? 0))
    | _ =>
        match SFdiv Py.prec Py.emax (int_as_float a) (int_as_float b) with
        | S754_infinity _ =>
            Raise (OverflowError
                     "integer division result too large for a float")
        | f => Ok f
        end
    end.

(** A valid configuration whose waits exceed [2 ^ 53] microseconds: the
    float [2.0 ** 60] as cap and a very wide slot. *)
Definition f2_60 : Py.float := S754_finite false 4503599627370496 8.

Definition wide_slot_config : Core.BackoffConfig :=
  {| Core.base_seconds := f0_05;
     Core.slot_ms := 288230376151712;
     Core.slots_M := 16;
     Core.collatz_seed := 0;
     Core.cap_seconds := f2_60 |}.

Definition wide_slot_engine : Core.CollatzBackoff :=
  {| Core.cfg := wide_slot_config |}.

(** ** The error monad *)

Lemma bind_Ok_inv {A B : Type} (m : result A) (f : A -> result B) (y : B) :
  bind m f = Ok y -> exists x, m = Ok x /\ f x = Ok y.
Proof.
  destruct m as [x | e]; simpl; intros H; [eauto | discriminate].
Qed.

Lemma mod_Ok (a M : Z) : M <> 0 -> Py.mod_ a M = Ok (a mod M).
Proof.
  intros HM. unfold Py.mod_.
  destruct (Z.eqb_spec M 0) as [E | _]; [contradiction | reflexivity].
Qed.

(** ** The float literals

    Each literal is a well-formed binary64 value; the integral ones are the
    conversions of their integers, and [0.05] is the correctly rounded
    quotient [5 / 100]. *)
Lemma float_literals :
  valid_binary Py.prec Py.emax Py.f1000 = true
  /\ valid_binary Py.prec Py.emax Py.f1000000 = true
  /\ valid_binary Py.prec Py.emax f0_05 = true
  /\ valid_binary Py.prec Py.emax f10 = true
  /\ Py.float_of_int 1000 = Ok Py.f1000
  /\ Py.float_of_int 1000000 = Ok Py.f1000000
  /\ Py.float_of_int 10 = Ok f10
  /\ Py.int_div_float 5 (S754_finite false 7036874417766400 (-46)) = Ok f0_05
  /\ Py.float_of_int 100 = Ok (S754_finite false 7036874417766400 (-46)).
Proof. repeat split; vm_compute; reflexivity. Qed.

(** ** The Collatz iterator *)

Lemma collatz_step_even_odd (n : Z) :
  Core.collatz_step n = if Z.even n then n / 2 else (3 * n + 1) / 2.
Proof.
  unfold Core.collatz_step. rewrite Zeven_mod. reflexivity.
Qed.

Lemma collatz_loop_iter (fuel : nat) (n : Z) :
  Core.collatz_loop fuel n = Nat.iter fuel Core.collatz_step n.
Proof.
  revert n. induction fuel as [| fuel IH]; intros n.
  - reflexivity.
  - rewrite Nat.iter_succ_r. simpl. apply IH.
Qed.

Lemma collatz_loop_zero (fuel : nat) : Core.collatz_loop fuel 0 = 0.
Proof.
  induction fuel as [| fuel IH]; [reflexivity | exact IH].
Qed.

Lemma script_collatz_iter_eq (seed k : Z) :
  Script.collatz_iter seed k = Core.collatz_iter seed k.
Proof.
  unfold Script.collatz_iter, Core.collatz_iter.
  generalize (Z.to_nat k) as fuel. intros fuel. revert seed.
  induction fuel as [| fuel IH]; intros seed; [reflexivity | apply IH].
Qed.

Lemma reference_iterate_eq (seed : Z) (k : nat) :
  Reference.iterate seed k = Core.collatz_loop k seed.
Proof.
  rewrite collatz_loop_iter. unfold Reference.iterate.
  induction k as [| k IH]; [reflexivity |].
  simpl. rewrite IH. symmetry. apply collatz_step_even_odd.
Qed.

(** C5: [collatz_step] is the shortcut Collatz map; [collatz_iter seed k]
    applies it exactly [k] times, starting from [seed] ([k = 0] returns the
    seed, one more step is one more application); and the seed 0 is a fixed
    point, so [collatz_iter 0 k = 0] for every [k]. *)
Theorem collatz_iter_applies_step_k_times :
  (forall n, Core.collatz_step n
             = if Z.even n then n / 2 else (3 * n + 1) / 2)
  /\ (forall seed, Core.collatz_iter seed 0 = seed)
  /\ (forall seed k, 0 <= k ->
        Core.collatz_iter seed k
        = Nat.iter (Z.to_nat k) Core.collatz_step seed)
  /\ (forall seed k, 0 <= k ->
        Core.collatz_iter seed (k + 1)
        = Core.collatz_step (Core.collatz_iter seed k))
  /\ (forall k, 0 <= k -> Core.collatz_iter 0 k = 0).
Proof.
  repeat split.
  - apply collatz_step_even_odd.
  - intros seed k _. apply collatz_loop_iter.
  - intros seed k Hk. unfold Core.collatz_iter.
    rewrite !collatz_loop_iter.
    replace (Z.to_nat (k + 1)) with (S (Z.to_nat k)) by lia.
    reflexivity.
  - intros k _. apply collatz_loop_zero.
Qed.

(** ** Validation and construction *)

Lemma validate_Ok_iff (c : Core.BackoffConfig) :
  Core.validate c = Ok tt <->
  Py.fle (Core.base_seconds c) Py.fzero = false
  /\ 0 < Core.slot_ms c
  /\ 1 < Core.slots_M c
  /\ Py.fle (Core.cap_seconds c) Py.fzero = false.
Proof.
  unfold Core.validate.
  destruct (Py.fle (Core.base_seconds c) Py.fzero);
    [split; [discriminate | intros [H _]; discriminate] |].
  destruct (Z.leb_spec (Core.slot_ms c) 0);
    [split; [discriminate | intros (_ & H1 & _); lia] |].
  destruct (Z.leb_spec (Core.slots_M c) 1);
    [split; [discriminate | intros (_ & _ & H1 & _); lia] |].
  destruct (Py.fle (Core.cap_seconds c) Py.fzero);
    [split; [discriminate | intros (_ & _ & _ & H1); discriminate] |].
  split; [intros _; repeat split; assumption | reflexivity].
Qed.

Lemma validate_cases (c : Core.BackoffConfig) :
  Core.validate c = Ok tt \/ exists msg, Core.validate c = Raise (ValueError msg).
Proof.
  unfold Core.validate.
  repeat match goal with
         | |- context [if ?t then _ else _] => destruct t; [right; eauto |]
         end.
  left; reflexivity.
Qed.

Lemma init_Ok_inv (c : Core.BackoffConfig) (b : Core.CollatzBackoff) :
  Core.init c = Ok b ->
  Core.cfg b = c
  /\ Py.fle (Core.base_seconds c) Py.fzero = false
  /\ 0 < Core.slot_ms c
  /\ 1 < Core.slots_M c
  /\ Py.fle (Core.cap_seconds c) Py.fzero = false.
Proof.
  unfold Core.init. intros H.
  apply bind_Ok_inv in H. destruct H as ([] & Hv & Hb).
  injection Hb as <-. split; [reflexivity |].
  apply validate_Ok_iff; exact Hv.
Qed.

(** C6: construction raises the configuration error ([ValueError] in the
    source) exactly when one of the four bounds is violated, and otherwise
    returns the engine wrapping the configuration; [collatz_seed] is never
    inspected. *)
Theorem init_fails_iff_bound_violated (c : Core.BackoffConfig) :
  ((exists msg, Core.init c = Raise (ValueError msg)) <->
   (Py.fle (Core.base_seconds c) Py.fzero = true
    \/ Core.slot_ms c <= 0
    \/ Core.slots_M c <= 1
    \/ Py.fle (Core.cap_seconds c) Py.fzero = true))
  /\ ((exists e, Core.init c = Raise e) <->
      (exists msg, Core.init c = Raise (ValueError msg)))
  /\ (Py.fle (Core.base_seconds c) Py.fzero = false ->
      0 < Core.slot_ms c ->
      1 < Core.slots_M c ->
      Py.fle (Core.cap_seconds c) Py.fzero = false ->
      Core.init c = Ok {| Core.cfg := c |})
  /\ (forall seed',
        (exists e, Core.init c = Raise e) <->
        (exists e,
            Core.init {| Core.base_seconds := Core.base_seconds c;
                         Core.slot_ms := Core.slot_ms c;
                         Core.slots_M := Core.slots_M c;
                         Core.collatz_seed := seed';
                         Core.cap_seconds := Core.cap_seconds c |}
            = Raise e)).
Proof.
  assert (Hok : forall c', Core.validate c' = Ok tt ->
                           Core.init c' = Ok {| Core.cfg := c' |}).
  { intros c' H. unfold Core.init. rewrite H. reflexivity. }
  assert (Hraise : forall c', (exists e, Core.init c' = Raise e) <->
                              Core.validate c' <> Ok tt).
  { intros c'. unfold Core.init.
    destruct (Core.validate c') as [[] | e]; simpl; split.
    - intros [e H]; discriminate.
    - intros H; exfalso; apply H; reflexivity.
    - intros _; discriminate.
    - intros _; eauto. }
  repeat split.
  - intros [msg H].
    destruct (Py.fle (Core.base_seconds c) Py.fzero) eqn:E1; [auto |].
    destruct (Z.leb_spec (Core.slot_ms c) 0); [auto |].
    destruct (Z.leb_spec (Core.slots_M c) 1); [auto |].
    destruct (Py.fle (Core.cap_seconds c) Py.fzero) eqn:E4; [auto |].
    rewrite Hok in H; [discriminate |].
    apply validate_Ok_iff; auto.
  - intros H. unfold Core.init.
    destruct (validate_cases c) as [Hv | [msg Hv]].
    + apply validate_Ok_iff in Hv. destruct Hv as (H1 & H2 & H3 & H4).
      destruct H as [H | [H | [H | H]]]; [congruence | lia | lia | congruence].
    + exists msg. rewrite Hv. reflexivity.
  - intros [e H]. unfold Core.init in *.
    destruct (validate_cases c) as [Hv | [msg Hv]]; rewrite Hv in *.
    + discriminate.
    + exists msg; reflexivity.
  - intros [msg H]; eauto.
  - intros H1 H2 H3 H4. apply Hok. apply validate_Ok_iff; auto.
  - intros H. apply Hraise. apply Hraise in H.
    intros Hv; apply H. apply validate_Ok_iff.
    apply validate_Ok_iff in Hv. exact Hv.
  - intros H. apply Hraise. apply Hraise in H.
    intros Hv; apply H. apply validate_Ok_iff.
    apply validate_Ok_iff in Hv. exact Hv.
Qed.

(** From a successful construction: the engine wraps the configuration
    ([Hc]) and the modulus exceeds 1 ([HM]). *)
Ltac engine_bounds Hinit Hc HM :=
  apply init_Ok_inv in Hinit;
  destruct Hinit as (Hc & _ & _ & HM & _).

(** ** The affine parameters *)

Lemma affine_params_eq (b : Core.CollatzBackoff) (k : Z) :
  Core.slots_M (Core.cfg b) <> 0 ->
  Core.affine_params b k
  = Ok (multiplier (Core.slots_M (Core.cfg b))
          (Core.collatz_iter (Core.collatz_seed (Core.cfg b)) (k + 1)),
        shift_term (Core.slots_M (Core.cfg b))
          (Core.collatz_iter (Core.collatz_seed (Core.cfg b)) (k + 1))).
Proof.
  intros HM. unfold Core.affine_params.
  rewrite !mod_Ok by exact HM. reflexivity.
Qed.

Lemma odd_residue_range (M n : Z) : 1 < M -> 1 <= odd_residue M n < M.
Proof.
  intros HM. unfold odd_residue.
  pose proof (Z.mod_pos_bound (Z.lor n 1) M ltac:(lia)) as Hr.
  destruct (Z.eqb_spec (Z.lor n 1 mod M) 0); lia.
Qed.

Lemma multiplier_range (M n : Z) : 1 < M -> 1 <= multiplier M n < M.
Proof.
  intros HM. unfold multiplier.
  pose proof (odd_residue_range M n HM).
  destruct (Z.gcd (odd_residue M n) M =? 1); simpl; lia.
Qed.

Lemma multiplier_coprime (M n : Z) : Z.gcd (multiplier M n) M = 1.
Proof.
  unfold multiplier.
  destruct (Z.eqb_spec (Z.gcd (odd_residue M n) M) 1) as [E | _]; simpl.
  - exact E.
  - apply Z.gcd_1_l.
Qed.

Lemma shift_term_range (M n : Z) : 0 < M -> 0 <= shift_term M n < M.
Proof.
  intros HM. unfold shift_term. apply Z.mod_pos_bound; exact HM.
Qed.

(** C2: for a valid configuration and [k >= 0], [affine_params] returns a
    pair [(a, b)] with [1 <= a < M], [0 <= b < M] and [gcd a M = 1], for any
    modulus [M > 1] and any seed; the multiplier is [1] whenever the residue
    [(n | 1) mod M] is not coprime to [M], and is that residue otherwise. *)
Theorem affine_params_range_coprime
    (c : Core.BackoffConfig) (b : Core.CollatzBackoff) (k : Z) :
  Core.init c = Ok b ->
  0 <= k ->
  exists a b',
    Core.affine_params b k = Ok (a, b')
    /\ 1 <= a < Core.slots_M c
    /\ 0 <= b' < Core.slots_M c
    /\ Z.gcd a (Core.slots_M c) = 1
    /\ let r := Z.lor (Core.collatz_iter (Core.collatz_seed c) (k + 1)) 1
                mod Core.slots_M c in
       (Z.gcd r (Core.slots_M c) <> 1 -> a = 1)
       /\ (Z.gcd r (Core.slots_M c) = 1 -> a = r).
Proof.
  intros Hinit _.
  engine_bounds Hinit Hc HM.
  rewrite affine_params_eq by (rewrite Hc; lia). rewrite Hc.
  set (M := Core.slots_M c) in *.
  set (n := Core.collatz_iter (Core.collatz_seed c) (k + 1)).
  exists (multiplier M n), (shift_term M n).
  split; [reflexivity |].
  split; [apply multiplier_range; exact HM |].
  split; [apply shift_term_range; lia |].
  split; [apply multiplier_coprime |].
  cbv zeta. unfold multiplier, odd_residue.
  destruct (Z.eqb_spec (Z.lor n 1 mod M) 0) as [E0 | E0].
  - rewrite E0. rewrite Z.gcd_0_l, Z.gcd_1_l. simpl.
    split; [reflexivity | intros H; lia].
  - destruct (Z.eqb_spec (Z.gcd (Z.lor n 1 mod M) M) 1) as [E | E]; simpl.
    + split; [intros H; contradiction | reflexivity].
    + split; [reflexivity | intros H; contradiction].
Qed.

(** C4: [affine_params k] is the reference derivation of the
    specification: the iterate [k + 1] of the seed, the odd-forced residue
    with [0] replaced by [1], the invertibility fallback to [1], and the
    additive term [(n >> 3) mod M]. *)
Theorem affine_params_refines_reference
    (c : Core.BackoffConfig) (b : Core.CollatzBackoff) (k : Z) :
  Core.init c = Ok b ->
  0 <= k ->
  Core.affine_params b k
  = Ok (Reference.params (Core.slots_M c) (Core.collatz_seed c) k).
Proof.
  intros Hinit _.
  engine_bounds Hinit Hc HM.
  rewrite affine_params_eq by (rewrite Hc; lia). rewrite Hc.
  unfold Reference.params, multiplier, odd_residue, shift_term.
  rewrite reference_iterate_eq. fold (Core.collatz_iter (Core.collatz_seed c) (k + 1)).
  cbv zeta.
  destruct (Z.gcd _ _ =? 1); reflexivity.
Qed.

(** ** The slot of a participant *)

Lemma offset_slot_eq (b : Core.CollatzBackoff) (node_id k : Z) :
  Core.slots_M (Core.cfg b) <> 0 ->
  Core.offset_slot b node_id k
  = Ok ((multiplier (Core.slots_M (Core.cfg b))
           (Core.collatz_iter (Core.collatz_seed (Core.cfg b)) (k + 1))
         * node_id
         + shift_term (Core.slots_M (Core.cfg b))
             (Core.collatz_iter (Core.collatz_seed (Core.cfg b)) (k + 1)))
        mod Core.slots_M (Core.cfg b)).
Proof.
  intros HM. unfold Core.offset_slot.
  rewrite affine_params_eq by exact HM. simpl.
  apply mod_Ok; exact HM.
Qed.

(** An affine map with an invertible multiplier separates any two integers
    that are less than a modulus apart. *)
Lemma affine_mod_injective (M a b' i j : Z) :
  0 < M -> Z.gcd a M = 1 ->
  0 <= i < M -> 0 <= j < M ->
  (a * i + b') mod M = (a * j + b') mod M -> i = j.
Proof.
  intros HM Hg Hi Hj Heq.
  assert (Hdiv : (M | a * (i - j))).
  { apply Z.mod_divide; [lia |].
    replace (a * (i - j)) with ((a * i + b') - (a * j + b')) by ring.
    rewrite Zminus_mod, Heq, Z.sub_diag. apply Z.mod_0_l; lia. }
  apply Z.gauss in Hdiv; [| rewrite Z.gcd_comm; exact Hg].
  destruct Hdiv as [q Hq].
  assert (Hq0 : q = 0) by nia.
  subst q. lia.
Qed.

(** C1: for a valid configuration, a step [k >= 0] and [1 <= n <= M], every
    id below [n] gets a slot in [0, M), and two ids below [n] with the same
    slot are the same id. *)
Theorem offset_slot_injective_within_capacity
    (c : Core.BackoffConfig) (b : Core.CollatzBackoff) (k n : Z) :
  Core.init c = Ok b ->
  0 <= k ->
  1 <= n <= Core.slots_M c ->
  (forall i, 0 <= i < n ->
     exists s, Core.offset_slot b i k = Ok s /\ 0 <= s < Core.slots_M c)
  /\ (forall i j, 0 <= i < n -> 0 <= j < n ->
        Core.offset_slot b i k = Core.offset_slot b j k -> i = j).
Proof.
  intros Hinit _ Hn.
  engine_bounds Hinit Hc HM.
  split.
  - intros i _. rewrite offset_slot_eq by (rewrite Hc; lia). rewrite Hc.
    eexists; split; [reflexivity |]. apply Z.mod_pos_bound; lia.
  - intros i j Hi Hj. rewrite !offset_slot_eq by (rewrite Hc; lia).
    rewrite Hc. intros Heq. injection Heq as Heq.
    eapply affine_mod_injective; [| apply multiplier_coprime | | | exact Heq];
      lia.
Qed.

(** C10: the slot depends on the id only through its residue modulo [M]:
    congruent ids get the same slot, in particular [id] and [id + M]. *)
Theorem offset_slot_depends_on_residue
    (c : Core.BackoffConfig) (b : Core.CollatzBackoff) (k : Z) :
  Core.init c = Ok b ->
  0 <= k ->
  (forall id1 id2,
      id1 mod Core.slots_M c = id2 mod Core.slots_M c ->
      Core.offset_slot b id1 k = Core.offset_slot b id2 k)
  /\ (forall id,
        Core.offset_slot b (id + Core.slots_M c) k = Core.offset_slot b id k).
Proof.
  intros Hinit _.
  engine_bounds Hinit Hc HM.
  assert (Hcong : forall id1 id2,
             id1 mod Core.slots_M c = id2 mod Core.slots_M c ->
             Core.offset_slot b id1 k = Core.offset_slot b id2 k).
  { intros id1 id2 Hmod. rewrite !offset_slot_eq by (rewrite Hc; lia).
    rewrite Hc. f_equal.
    rewrite (Z.add_mod (_ * id1)), (Z.add_mod (_ * id2)) by lia.
    rewrite (Z.mul_mod _ id1), (Z.mul_mod _ id2) by lia.
    rewrite Hmod. reflexivity. }
  split; [exact Hcong |].
  intros id. apply Hcong.
  rewrite <- (Z.mul_1_l (Core.slots_M c)) at 1.
  apply Z.mod_add; lia.
Qed.

(** ** Signs of the float computations *)

Lemma binary_round_aux_not_negative (mx ex : Z) (lx : location) :
  not_negative (binary_round_aux Py.prec Py.emax false mx ex lx) = true.
Proof.
  unfold binary_round_aux.
  destruct (shr_fexp Py.prec Py.emax mx ex lx) as [mrs' e'].
  destruct (shr_fexp Py.prec Py.emax _ e' loc_Exact) as [mrs'' e''].
  destruct (shr_m mrs''); [reflexivity | | reflexivity].
  destruct (Z.leb e'' (Z.sub Py.emax Py.prec)); reflexivity.
Qed.

Lemma binary_round_not_negative (m : positive) (e : Z) :
  not_negative (binary_round Py.prec Py.emax false m e) = true.
Proof.
  unfold binary_round.
  destruct (shl_align m e _) as [mz ez].
  apply binary_round_aux_not_negative.
Qed.

Lemma fmul_not_negative (x y : Py.float) :
  not_negative x = true -> not_negative y = true ->
  not_negative (Py.fmul x y) = true.
Proof.
  destruct x as [sx | sx | | sx mx ex], y as [sy | sy | | sy my ey];
    try reflexivity.
  destruct sx; [discriminate |]. destruct sy; [intros _; discriminate |].
  intros _ _. apply binary_round_aux_not_negative.
Qed.

Lemma float_of_int_not_negative (z : Z) (f : Py.float) :
  0 <= z -> Py.float_of_int z = Ok f -> not_negative f = true.
Proof.
  intros Hz. unfold Py.float_of_int.
  destruct z as [| m | m]; [| | lia].
  - simpl. intros H; injection H as <-; reflexivity.
  - pose proof (binary_round_not_negative m 0) as Hs.
    unfold binary_normalize.
    destruct (binary_round Py.prec Py.emax false m 0);
      intros H; try discriminate; injection H as <-; exact Hs.
Qed.

Lemma fmul_num_not_negative (x : Py.float) (p : Py.num) (y : Py.float) :
  not_negative x = true ->
  match p with Py.Int z => 0 <= z | Py.Float f => not_negative f = true end ->
  Py.fmul_num x p = Ok y -> not_negative y = true.
Proof.
  intros Hx Hp. destruct p as [z | f]; simpl.
  - intros H. apply bind_Ok_inv in H. destruct H as (zf & Hzf & H).
    injection H as <-. apply fmul_not_negative; [exact Hx |].
    eapply float_of_int_not_negative; eassumption.
  - intros H. injection H as <-. apply fmul_not_negative; assumption.
Qed.

Lemma pow2_not_negative (k : Z) (p : Py.num) :
  Py.pow2 k = Ok p ->
  match p with Py.Int z => 0 <= z | Py.Float f => not_negative f = true end.
Proof.
  unfold Py.pow2. destruct (Z.leb_spec 0 k) as [Hk | Hk].
  - intros H. injection H as <-. apply Z.pow_nonneg. lia.
  - intros H. apply bind_Ok_inv in H. destruct H as (kf & _ & H).
    injection H as <-.
    destruct (-1074 <=? k); [| reflexivity].
    unfold binary_normalize. apply binary_round_not_negative.
Qed.

Lemma round_half_even_nonneg (m : positive) (e : Z) :
  0 <= Py.round_half_even m e.
Proof.
  unfold Py.round_half_even. destruct e as [| p | p]; [lia | |].
  - pose proof (Z.pow_pos_nonneg 2 (Z.pos p) ltac:(lia) ltac:(lia)). nia.
  - pose proof (Z.pow_pos_nonneg 2 (Z.pos p) ltac:(lia) ltac:(lia)) as Hd.
    pose proof (Z.div_pos (Z.pos m) (2 ^ Z.pos p) ltac:(lia) Hd) as Hq.
    cbv zeta.
    destruct (2 * (Z.pos m mod 2 ^ Z.pos p) ?= 2 ^ Z.pos p); [| lia | lia].
    destruct (Z.even _); lia.
Qed.

Lemma round_not_negative (x : Py.float) (z : Z) :
  not_negative x = true -> Py.round x = Ok z -> 0 <= z.
Proof.
  destruct x as [s | s | | s m e]; simpl; intros Hx H; try discriminate.
  - injection H as <-; lia.
  - destruct s; [discriminate |]. injection H as <-.
    apply round_half_even_nonneg.
Qed.

Lemma validated_not_negative (x : Py.float) :
  Py.fle x Py.fzero = false -> not_negative x = true.
Proof.
  destruct x as [s | s | | s m e]; try reflexivity.
  destruct s; [intros H; discriminate H | reflexivity].
Qed.

Lemma f1000000_not_negative : not_negative Py.f1000000 = true.
Proof. reflexivity. Qed.

(** ** The wait in microseconds *)

Lemma base_us_nonneg (b : Core.CollatzBackoff) (k B : Z) :
  not_negative (Core.base_seconds (Core.cfg b)) = true ->
  Core.base_us b k = Ok B -> 0 <= B.
Proof.
  intros Hs H. unfold Core.base_us in H.
  apply bind_Ok_inv in H. destruct H as (p & Hp & H).
  apply bind_Ok_inv in H. destruct H as (x & Hx & H).
  apply bind_Ok_inv in H. destruct H as (y & Hy & H).
  apply pow2_not_negative in Hp.
  pose proof (fmul_num_not_negative _ _ _ Hs Hp Hx) as Hxs.
  assert (Hys : not_negative y = true).
  { eapply (fmul_num_not_negative x (Py.Int 1000000));
      [exact Hxs | simpl; lia | exact Hy]. }
  eapply round_not_negative; eassumption.
Qed.

Lemma cap_us_nonneg (b : Core.CollatzBackoff) (C : Z) :
  not_negative (Core.cap_seconds (Core.cfg b)) = true ->
  Core.cap_us b = Ok C -> 0 <= C.
Proof.
  intros Hs H. unfold Core.cap_us in H.
  apply bind_Ok_inv in H. destruct H as (y & Hy & H).
  assert (Hys : not_negative y = true).
  { eapply (fmul_num_not_negative _ (Py.Int 1000000));
      [exact Hs | simpl; lia | exact Hy]. }
  eapply round_not_negative; eassumption.
Qed.

Lemma wait_micros_eq (b : Core.CollatzBackoff) (node_id k B C s : Z) :
  Core.base_us b k = Ok B ->
  Core.cap_us b = Ok C ->
  Core.offset_slot b node_id k = Ok s ->
  Core.wait_micros b node_id k
  = Ok (Z.min C (B + s * Core.slot_ms (Core.cfg b) * 1000)).
Proof.
  intros HB HC Hs. unfold Core.wait_micros, Core.jitter_us.
  rewrite HB, Hs, HC. reflexivity.
Qed.

Lemma wait_micros_Raise (b : Core.CollatzBackoff) (node_id k : Z) (e : exn) :
  Core.slots_M (Core.cfg b) <> 0 ->
  Core.wait_micros b node_id k = Raise e ->
  Core.base_us b k = Raise e \/ Core.cap_us b = Raise e.
Proof.
  intros HM. unfold Core.wait_micros, Core.jitter_us.
  rewrite offset_slot_eq by exact HM.
  destruct (Core.base_us b k) as [B | e1]; simpl; [| auto].
  destruct (Core.cap_us b) as [C | e2]; simpl; [discriminate | auto].
Qed.

Lemma base_us_ext (b b' : Core.CollatzBackoff) (k : Z) :
  Core.base_seconds (Core.cfg b) = Core.base_seconds (Core.cfg b') ->
  Core.base_us b k = Core.base_us b' k.
Proof.
  intros H. unfold Core.base_us. rewrite H. reflexivity.
Qed.

Lemma cap_us_ext (b b' : Core.CollatzBackoff) :
  Core.cap_seconds (Core.cfg b) = Core.cap_seconds (Core.cfg b') ->
  Core.cap_us b = Core.cap_us b'.
Proof.
  intros H. unfold Core.cap_us. rewrite H. reflexivity.
Qed.

Lemma base_us_doubles_default :
  forallb (base_us_doubles default_engine) (seq 0 1009) = true.
Proof. vm_compute. reflexivity. Qed.

(** With the default base delay of 0.05 s the base wait is exactly
    [50000 * 2 ^ k] microseconds for every step up to 1008. *)
Lemma base_us_default (b : Core.CollatzBackoff) (k : Z) :
  Core.base_seconds (Core.cfg b) = f0_05 ->
  0 <= k <= 1008 ->
  Core.base_us b k = Ok (50000 * 2 ^ k).
Proof.
  intros Hb Hk.
  rewrite (base_us_ext b default_engine) by exact Hb.
  pose proof base_us_doubles_default as H.
  rewrite forallb_forall in H.
  specialize (H (Z.to_nat k)).
  rewrite in_seq in H. specialize (H ltac:(lia)).
  unfold base_us_doubles in H. rewrite Z2Nat.id in H by lia.
  destruct (Core.base_us default_engine k) as [B | e]; [| discriminate].
  apply Z.eqb_eq in H. rewrite H. reflexivity.
Qed.

(** One step further the float product is infinite and the rounding
    raises. *)
Lemma base_us_default_overflows :
  Core.base_us default_engine 1009
  = Raise (OverflowError "cannot convert float infinity to integer")
  /\ Core.base_us default_engine 1024
     = Raise (OverflowError "int too large to convert to float").
Proof. split; vm_compute; reflexivity. Qed.

Lemma wait_micros_default_overflows :
  Core.wait_micros default_engine 0 1009
  = Raise (OverflowError "cannot convert float infinity to integer").
Proof. vm_compute. reflexivity. Qed.

Lemma cap_us_default (b : Core.CollatzBackoff) :
  Core.cap_seconds (Core.cfg b) = f10 ->
  Core.cap_us b = Ok 10000000.
Proof.
  intros Hc. rewrite (cap_us_ext b default_engine) by exact Hc.
  vm_compute. reflexivity.
Qed.

(** Within capacity two distinct ids wait differently unless the cap has
    flattened both waits. *)
Lemma wait_micros_distinct_or_capped
    (c : Core.BackoffConfig) (b : Core.CollatzBackoff) (k n i j B C : Z) :
  Core.init c = Ok b ->
  Core.base_us b k = Ok B ->
  Core.cap_us b = Ok C ->
  1 <= n <= Core.slots_M c ->
  0 <= i < n -> 0 <= j < n -> i <> j ->
  exists wi wj,
    Core.wait_micros b i k = Ok wi
    /\ Core.wait_micros b j k = Ok wj
    /\ (wi <> wj \/ (wi = C /\ wj = C))
    /\ (B + (Core.slots_M c - 1) * Core.slot_ms c * 1000 < C -> wi <> wj).
Proof.
  intros Hinit HB HC Hn Hi Hj Hij.
  apply init_Ok_inv in Hinit. destruct Hinit as (Hc & _ & Hms & HM & _).
  assert (HM0 : Core.slots_M (Core.cfg b) <> 0) by (rewrite Hc; lia).
  pose proof (offset_slot_eq b i k HM0) as Hsi.
  pose proof (offset_slot_eq b j k HM0) as Hsj.
  rewrite (wait_micros_eq b i k B C _ HB HC Hsi).
  rewrite (wait_micros_eq b j k B C _ HB HC Hsj).
  rewrite Hc in *.
  set (M := Core.slots_M c) in *.
  set (a := multiplier M _) in *. set (b' := shift_term M _) in *.
  assert (Hne : (a * i + b') mod M <> (a * j + b') mod M).
  { intros Heq. apply Hij.
    apply (affine_mod_injective M a b' i j); try lia.
    apply multiplier_coprime. }
  pose proof (Z.mod_pos_bound (a * i + b') M ltac:(lia)) as Hri.
  pose proof (Z.mod_pos_bound (a * j + b') M ltac:(lia)) as Hrj.
  set (si := (a * i + b') mod M) in *. set (sj := (a * j + b') mod M) in *.
  assert (Hjit : si * Core.slot_ms c <> sj * Core.slot_ms c) by nia.
  assert (Hbi : si * Core.slot_ms c <= (M - 1) * Core.slot_ms c) by nia.
  assert (Hbj : sj * Core.slot_ms c <= (M - 1) * Core.slot_ms c) by nia.
  do 2 eexists. split; [reflexivity |]. split; [reflexivity |].
  split; lia.
Qed.

(** With the default base delay and cap, for a step in [0, 12) the waits
    of two distinct ids below [n <= M] can only coincide at the cap of
    10 000 000 microseconds. *)
Theorem wait_micros_distinct_unless_capped
    (c : Core.BackoffConfig) (b : Core.CollatzBackoff) (k n i j : Z) :
  Core.init c = Ok b ->
  Core.base_seconds c = f0_05 ->
  Core.cap_seconds c = f10 ->
  0 <= k < 12 ->
  1 <= n <= Core.slots_M c ->
  0 <= i < n -> 0 <= j < n -> i <> j ->
  exists wi wj,
    Core.wait_micros b i k = Ok wi
    /\ Core.wait_micros b j k = Ok wj
    /\ (wi <> wj \/ (wi = 10000000 /\ wj = 10000000))
    /\ (50000 * 2 ^ k + (Core.slots_M c - 1) * Core.slot_ms c * 1000
        < 10000000 -> wi <> wj).
Proof.
  intros Hinit Hbase Hcap Hk Hn Hi Hj Hij.
  pose proof (init_Ok_inv c b Hinit) as (Hc & _).
  eapply wait_micros_distinct_or_capped; try eassumption.
  - apply base_us_default; [rewrite Hc; exact Hbase | lia].
  - apply cap_us_default. rewrite Hc; exact Hcap.
Qed.

(** C7 (as amended): the engine has no argument check.  For every pair of
    integers [id] and [k], negative or not, [offset_slot] returns a slot in
    [0, M); [wait_micros] returns a non-negative integer bounded by the cap
    in microseconds whenever the two float-to-integer roundings are defined,
    which with the default base delay and cap is the case for every step
    from 0 to 1008. *)
Theorem schedule_accepts_every_integer
    (c : Core.BackoffConfig) (b : Core.CollatzBackoff) (node_id k : Z) :
  Core.init c = Ok b ->
  (exists s, Core.offset_slot b node_id k = Ok s /\ 0 <= s < Core.slots_M c)
  /\ (forall B C,
        Core.base_us b k = Ok B -> Core.cap_us b = Ok C ->
        exists w, Core.wait_micros b node_id k = Ok w /\ 0 <= w <= C)
  /\ (Core.base_seconds c = f0_05 -> Core.cap_seconds c = f10 ->
      0 <= k <= 1008 ->
      exists w, Core.wait_micros b node_id k = Ok w /\ 0 <= w <= 10000000).
Proof.
  intros Hinit.
  pose proof (init_Ok_inv c b Hinit) as (Hc & Hbs & Hms & HM & Hcs).
  assert (HM0 : Core.slots_M (Core.cfg b) <> 0) by (rewrite Hc; lia).
  pose proof (offset_slot_eq b node_id k HM0) as Hs.
  pose proof (Z.mod_pos_bound
                (multiplier (Core.slots_M (Core.cfg b))
                   (Core.collatz_iter (Core.collatz_seed (Core.cfg b)) (k + 1))
                 * node_id
                 + shift_term (Core.slots_M (Core.cfg b))
                     (Core.collatz_iter (Core.collatz_seed (Core.cfg b))
                        (k + 1)))
                (Core.slots_M (Core.cfg b)) ltac:(rewrite Hc; lia)) as Hr.
  set (s := _ mod _) in *.
  assert (Hgen : forall B C,
             Core.base_us b k = Ok B -> Core.cap_us b = Ok C ->
             exists w, Core.wait_micros b node_id k = Ok w /\ 0 <= w <= C).
  { intros B C HB HC.
    rewrite (wait_micros_eq b node_id k B C s HB HC Hs).
    eexists; split; [reflexivity |].
    assert (0 <= B).
    { eapply base_us_nonneg; [| exact HB].
      rewrite Hc. apply validated_not_negative; exact Hbs. }
    assert (0 <= C).
    { eapply cap_us_nonneg; [| exact HC].
      rewrite Hc. apply validated_not_negative; exact Hcs. }
    rewrite Hc in *.
    assert (0 <= s * Core.slot_ms c * 1000) by nia.
    lia. }
  split; [| split].
  - exists s. split; [exact Hs | rewrite <- Hc; exact Hr].
  - exact Hgen.
  - intros Hbase Hcap Hk. apply (Hgen (50000 * 2 ^ k)).
    + apply base_us_default; [rewrite Hc; exact Hbase | exact Hk].
    + apply cap_us_default. rewrite Hc; exact Hcap.
Qed.


(** ** The script against the package *)

Lemma script_affine_params_eq (k seed M : Z) :
  M <> 0 ->
  Script.affine_params_from_collatz k seed M
  = Ok (odd_residue M (Core.collatz_iter seed (k + 1)),
        shift_term M (Core.collatz_iter seed (k + 1))).
Proof.
  intros HM. unfold Script.affine_params_from_collatz.
  rewrite script_collatz_iter_eq, !mod_Ok by exact HM. reflexivity.
Qed.

Lemma odd_coprime_pow2 (a e : Z) :
  0 <= e -> Z.odd a = true -> Z.gcd a (2 ^ e) = 1.
Proof.
  intros He Ha. apply Z.coprime_pow_r; [exact He |]. unfold Z.coprime.
  apply Z.odd_spec in Ha. destruct Ha as [q ->].
  rewrite Z.gcd_comm, Z.add_comm, (Z.mul_comm 2 q).
  rewrite Z.gcd_add_mult_diag_r. reflexivity.
Qed.

Lemma odd_residue_odd_pow2 (e n : Z) :
  1 <= e -> Z.odd (odd_residue (2 ^ e) n) = true.
Proof.
  intros He. unfold odd_residue.
  assert (Hodd : Z.odd (Z.lor n 1 mod 2 ^ e) = true).
  { rewrite <- Z.bit0_odd, Z.mod_pow2_bits_low by lia.
    rewrite Z.lor_spec, Bool.orb_true_r. reflexivity. }
  destruct (Z.eqb_spec (Z.lor n 1 mod 2 ^ e) 0) as [E | _];
    [rewrite E in Hodd; discriminate | exact Hodd].
Qed.

(** The script has no invertibility fallback: on a modulus that is not a
    power of two its multiplier can share a factor with [M], and its slot
    then differs from the engine's. *)
Lemma script_offset_without_fallback :
  Script.affine_params_from_collatz 0 6 6 = Ok (3, 0)
  /\ Core.affine_params {| Core.cfg := config_with 6 6 |} 0 = Ok (1, 0)
  /\ Script.collatz_perm_offset 1 0 6 6 = Ok 3
  /\ Core.offset_slot {| Core.cfg := config_with 6 6 |} 1 0 = Ok 1.
Proof. repeat split; vm_compute; reflexivity. Qed.

(** C9 (as amended): both implementations derive the parameters from the
    same iterate [collatz_iter seed (k + 1)], and the script's slot equals
    the engine's whenever the script's multiplier is invertible modulo [M],
    which is the case for every power-of-two modulus. *)
Theorem script_offset_agrees_when_invertible
    (c : Core.BackoffConfig) (b : Core.CollatzBackoff) (node_id k : Z) :
  Core.init c = Ok b ->
  0 <= node_id ->
  0 <= k ->
  exists a b',
    Script.affine_params_from_collatz k (Core.collatz_seed c) (Core.slots_M c)
    = Ok (a, b')
    /\ a = odd_residue (Core.slots_M c)
             (Core.collatz_iter (Core.collatz_seed c) (k + 1))
    /\ (Z.gcd a (Core.slots_M c) = 1 ->
        Core.affine_params b k = Ok (a, b')
        /\ Script.collatz_perm_offset node_id k
             (Core.slots_M c) (Core.collatz_seed c)
           = Core.offset_slot b node_id k)
    /\ ((exists e, Core.slots_M c = 2 ^ e) -> Z.gcd a (Core.slots_M c) = 1).
Proof.
  intros Hinit _ _.
  pose proof (init_Ok_inv c b Hinit) as (Hc & _ & _ & HM & _).
  assert (HM0 : Core.slots_M c <> 0) by lia.
  do 2 eexists. split; [apply script_affine_params_eq; exact HM0 |].
  split; [reflexivity |].
  set (M := Core.slots_M c) in *.
  set (n := Core.collatz_iter (Core.collatz_seed c) (k + 1)).
  split.
  - intros Hg.
    assert (Hmul : multiplier M n = odd_residue M n).
    { unfold multiplier. rewrite Hg. reflexivity. }
    split.
    + rewrite affine_params_eq by (rewrite Hc; exact HM0).
      rewrite Hc. fold M n. rewrite Hmul. reflexivity.
    + unfold Script.collatz_perm_offset.
      rewrite script_affine_params_eq by exact HM0. simpl.
      rewrite offset_slot_eq by (rewrite Hc; exact HM0).
      rewrite Hc. fold M n. rewrite Hmul. apply mod_Ok; exact HM0.
  - intros [e He].
    assert (1 <= e).
    { destruct (Z.lt_trichotomy e 0) as [Hlt | [-> | Hgt]]; [| | lia].
      - rewrite Z.pow_neg_r in He by exact Hlt. lia.
      - simpl in He. lia. }
    rewrite He. apply odd_coprime_pow2; [lia |].
    apply odd_residue_odd_pow2; assumption.
Qed.

(** ** The schedule on the default configuration *)

Lemma init_default : Core.init default_config = Ok default_engine.
Proof. reflexivity. Qed.

(** C3: on the default configuration, inside the range of the
    repository's own collision test, the waits of distinct ids are not
    distinct: at step 8 the base wait alone, 12.8 s, exceeds the cap of
    10 s, so the ids 0 and 1 both wait 10 000 000 microseconds. *)
Lemma capped_waits_collide :
  Core.init default_config = Ok default_engine
  /\ 0 <= 8 < 12
  /\ 2 <= Core.slots_M default_config
  /\ 0 <> 1
  /\ Core.wait_micros default_engine 0 8 = Ok 10000000
  /\ Core.wait_micros default_engine 1 8 = Ok 10000000.
Proof.
  split; [reflexivity |]. split; [lia |]. split; [simpl; lia |].
  split; [lia |]. split; vm_compute; reflexivity.
Qed.

(** Counterexample to C7 as stated: a negative id and a negative step are
    both accepted and produce a slot and a wait, so it is not the case that
    the functions raise exactly when an argument is negative. *)
Lemma negative_arguments_are_accepted :
  Core.init default_config = Ok default_engine
  /\ Core.offset_slot default_engine (-1) 0 = Ok 988
  /\ Core.offset_slot default_engine 0 (-1) = Ok 3
  /\ Core.wait_micros default_engine (-1) 0 = Ok 1038000
  /\ Core.wait_micros default_engine 0 (-2) = Ok 15500
  /\ ~ ((exists e, Core.offset_slot default_engine (-1) 0 = Raise e)
        <-> (-1 < 0 \/ 0 < 0))
  /\ ~ ((exists e, Core.wait_micros default_engine 0 (-2) = Raise e)
        <-> (0 < 0 \/ -2 < 0)).
Proof.
  assert (H1 : Core.offset_slot default_engine (-1) 0 = Ok 988)
    by (vm_compute; reflexivity).
  assert (H2 : Core.wait_micros default_engine 0 (-2) = Ok 15500)
    by (vm_compute; reflexivity).
  repeat split; try (vm_compute; reflexivity).
  - intros [_ H]. destruct H as [e He]; [left; lia |].
    rewrite H1 in He. discriminate.
  - intros [_ H]. destruct H as [e He]; [right; lia |].
    rewrite H2 in He. discriminate.
Qed.

(** Counterexample to C9 as stated: on the default configuration, for id 4
    at step 0 (slot 169), the package returns the double nearest to 0.219
    and the script returns the next double above it. *)
Lemma script_and_core_seconds_differ :
  Core.collatz_seeded_backoff_seconds 4 0 default_config
  = Ok (S754_finite false 7890306547153109 (-55))
  /\ Script.collatz_seeded_backoff_seconds 4 0 (Script.of_core default_config)
     = Ok (S754_finite false 7890306547153110 (-55))
  /\ Py.feq (S754_finite false 7890306547153109 (-55))
            (S754_finite false 7890306547153110 (-55)) = false
  /\ Core.collatz_seeded_backoff_seconds 4 0 default_config
     <> Script.collatz_seeded_backoff_seconds 4 0
          (Script.of_core default_config).
Proof.
  assert (H1 : Core.collatz_seeded_backoff_seconds 4 0 default_config
               = Ok (S754_finite false 7890306547153109 (-55)))
    by (vm_compute; reflexivity).
  assert (H2 : Script.collatz_seeded_backoff_seconds 4 0
                 (Script.of_core default_config)
               = Ok (S754_finite false 7890306547153110 (-55)))
    by (vm_compute; reflexivity).
  split; [exact H1 |]. split; [exact H2 |]. split; [reflexivity |].
  rewrite H1, H2. intros H. discriminate H.
Qed.

(** ** Instances on the default configuration *)

Lemma offset_slot_injective_within_capacity_witness :
  Core.init default_config = Ok default_engine
  /\ 0 <= 3
  /\ 1 <= 200 <= Core.slots_M default_config
  /\ ((forall i, 0 <= i < 200 ->
         exists s, Core.offset_slot default_engine i 3 = Ok s
                   /\ 0 <= s < Core.slots_M default_config)
      /\ (forall i j, 0 <= i < 200 -> 0 <= j < 200 ->
            Core.offset_slot default_engine i 3
            = Core.offset_slot default_engine j 3 -> i = j)).
Proof.
  assert (H1 : Core.init default_config = Ok default_engine) by reflexivity.
  assert (H2 : 0 <= 3) by lia.
  assert (H3 : 1 <= 200 <= Core.slots_M default_config) by (simpl; lia).
  repeat (split; [assumption |]).
  exact (offset_slot_injective_within_capacity
           default_config default_engine 3 200 H1 H2 H3).
Defined.

Lemma affine_params_range_coprime_witness :
  Core.init default_config = Ok default_engine
  /\ 0 <= 0
  /\ exists a b',
      Core.affine_params default_engine 0 = Ok (a, b')
      /\ 1 <= a < Core.slots_M default_config
      /\ 0 <= b' < Core.slots_M default_config
      /\ Z.gcd a (Core.slots_M default_config) = 1
      /\ let r := Z.lor (Core.collatz_iter
                           (Core.collatz_seed default_config) (0 + 1)) 1
                  mod Core.slots_M default_config in
         (Z.gcd r (Core.slots_M default_config) <> 1 -> a = 1)
         /\ (Z.gcd r (Core.slots_M default_config) = 1 -> a = r).
Proof.
  assert (H1 : Core.init default_config = Ok default_engine) by reflexivity.
  assert (H2 : 0 <= 0) by lia.
  repeat (split; [assumption |]).
  exact (affine_params_range_coprime default_config default_engine 0 H1 H2).
Defined.

Lemma wait_micros_distinct_unless_capped_witness :
  Core.init default_config = Ok default_engine
  /\ Core.base_seconds default_config = f0_05
  /\ Core.cap_seconds default_config = f10
  /\ 0 <= 8 < 12
  /\ 1 <= 2 <= Core.slots_M default_config
  /\ 0 <= 0 < 2 /\ 0 <= 1 < 2 /\ 0 <> 1
  /\ exists wi wj,
      Core.wait_micros default_engine 0 8 = Ok wi
      /\ Core.wait_micros default_engine 1 8 = Ok wj
      /\ (wi <> wj \/ (wi = 10000000 /\ wj = 10000000))
      /\ (50000 * 2 ^ 8
          + (Core.slots_M default_config - 1)
            * Core.slot_ms default_config * 1000
          < 10000000 -> wi <> wj).
Proof.
  assert (H1 : Core.init default_config = Ok default_engine) by reflexivity.
  assert (H2 : Core.base_seconds default_config = f0_05) by reflexivity.
  assert (H3 : Core.cap_seconds default_config = f10) by reflexivity.
  assert (H4 : 0 <= 8 < 12) by lia.
  assert (H5 : 1 <= 2 <= Core.slots_M default_config) by (simpl; lia).
  assert (H6 : 0 <= 0 < 2) by lia.
  assert (H7 : 0 <= 1 < 2) by lia.
  assert (H8 : 0 <> 1) by lia.
  repeat (split; [assumption |]).
  exact (wait_micros_distinct_unless_capped
           default_config default_engine 8 2 0 1 H1 H2 H3 H4 H5 H6 H7 H8).
Defined.

Lemma affine_params_refines_reference_witness :
  Core.init default_config = Ok default_engine
  /\ 0 <= 0
  /\ Core.affine_params default_engine 0
     = Ok (Reference.params (Core.slots_M default_config)
             (Core.collatz_seed default_config) 0).
Proof.
  assert (H1 : Core.init default_config = Ok default_engine) by reflexivity.
  assert (H2 : 0 <= 0) by lia.
  repeat (split; [assumption |]).
  exact (affine_params_refines_reference
           default_config default_engine 0 H1 H2).
Defined.

Lemma schedule_accepts_every_integer_witness :
  Core.init default_config = Ok default_engine
  /\ ((exists s, Core.offset_slot default_engine (-1) 5 = Ok s
                 /\ 0 <= s < Core.slots_M default_config)
      /\ (forall B C,
            Core.base_us default_engine 5 = Ok B ->
            Core.cap_us default_engine = Ok C ->
            exists w, Core.wait_micros default_engine (-1) 5 = Ok w
                      /\ 0 <= w <= C)
      /\ (Core.base_seconds default_config = f0_05 ->
          Core.cap_seconds default_config = f10 ->
          0 <= 5 <= 1008 ->
          exists w, Core.wait_micros default_engine (-1) 5 = Ok w
                    /\ 0 <= w <= 10000000)).
Proof.
  assert (H1 : Core.init default_config = Ok default_engine) by reflexivity.
  split; [assumption |].
  exact (schedule_accepts_every_integer
           default_config default_engine (-1) 5 H1).
Defined.


Lemma script_offset_agrees_when_invertible_witness :
  Core.init default_config = Ok default_engine
  /\ 0 <= 7 /\ 0 <= 0
  /\ exists a b',
      Script.affine_params_from_collatz 0
        (Core.collatz_seed default_config) (Core.slots_M default_config)
      = Ok (a, b')
      /\ a = odd_residue (Core.slots_M default_config)
               (Core.collatz_iter (Core.collatz_seed default_config) (0 + 1))
      /\ (Z.gcd a (Core.slots_M default_config) = 1 ->
          Core.affine_params default_engine 0 = Ok (a, b')
          /\ Script.collatz_perm_offset 7 0
               (Core.slots_M default_config)
               (Core.collatz_seed default_config)
             = Core.offset_slot default_engine 7 0)
      /\ ((exists e, Core.slots_M default_config = 2 ^ e) ->
          Z.gcd a (Core.slots_M default_config) = 1).
Proof.
  assert (H1 : Core.init default_config = Ok default_engine) by reflexivity.
  assert (H2 : 0 <= 7) by lia.
  assert (H3 : 0 <= 0) by lia.
  repeat (split; [assumption |]).
  exact (script_offset_agrees_when_invertible
           default_config default_engine 7 0 H1 H2 H3).
Defined.

Lemma offset_slot_depends_on_residue_witness :
  Core.init default_config = Ok default_engine
  /\ 0 <= 3
  /\ ((forall id1 id2,
          id1 mod Core.slots_M default_config
          = id2 mod Core.slots_M default_config ->
          Core.offset_slot default_engine id1 3
          = Core.offset_slot default_engine id2 3)
      /\ (forall id,
            Core.offset_slot default_engine
              (id + Core.slots_M default_config) 3
            = Core.offset_slot default_engine id 3)).
Proof.
  assert (H1 : Core.init default_config = Ok default_engine) by reflexivity.
  assert (H2 : 0 <= 3) by lia.
  repeat (split; [assumption |]).
  exact (offset_slot_depends_on_residue default_config default_engine 3 H1 H2).
Defined.

(** ** The slot map as a permutation *)

Lemma affine_mod_surjective (M a b' s : Z) :
  0 < M -> Z.gcd a M = 1 -> 0 <= s < M ->
  exists i, 0 <= i < M /\ (a * i + b') mod M = s.
Proof.
  intros HM Hg Hs.
  destruct (Z.gcd_bezout a M 1 Hg) as (u & v & Huv).
  exists ((u * (s - b')) mod M).
  split; [apply Z.mod_pos_bound; exact HM |].
  assert (E : (a * ((u * (s - b')) mod M) + b') mod M
              = (a * (u * (s - b')) + b') mod M).
  { rewrite Z.add_mod by lia. rewrite Z.mul_mod_idemp_r by lia.
    rewrite <- Z.add_mod by lia. reflexivity. }
  rewrite E.
  replace (a * (u * (s - b')) + b') with (s + (- v * (s - b')) * M).
  - rewrite Z.mod_add by lia. apply Z.mod_small; exact Hs.
  - replace (a * (u * (s - b'))) with ((u * a) * (s - b')) by ring.
    replace (u * a) with (1 - v * M) by lia. ring.
Qed.

(** For a valid engine and any step, [offset_slot] restricted to the ids
    [0 .. M-1] is a permutation of the slots [0 .. M-1]: every slot is the
    slot of exactly one such id. *)
Theorem offset_slot_permutes_slots
    (c : Core.BackoffConfig) (b : Core.CollatzBackoff) (k s : Z) :
  Core.init c = Ok b ->
  0 <= s < Core.slots_M c ->
  exists id,
    0 <= id < Core.slots_M c
    /\ Core.offset_slot b id k = Ok s
    /\ forall id', 0 <= id' < Core.slots_M c ->
                   Core.offset_slot b id' k = Ok s -> id' = id.
Proof.
  intros Hinit Hs. engine_bounds Hinit Hc HM.
  assert (HM0 : Core.slots_M (Core.cfg b) <> 0) by (rewrite Hc; lia).
  set (M := Core.slots_M c) in *.
  set (n := Core.collatz_iter (Core.collatz_seed c) (k + 1)).
  destruct (affine_mod_surjective M (multiplier M n) (shift_term M n) s)
    as (id & Hid & Hslot); [lia | apply multiplier_coprime | exact Hs |].
  exists id. split; [exact Hid |].
  assert (Heq : forall x, Core.offset_slot b x k
                          = Ok ((multiplier M n * x + shift_term M n) mod M)).
  { intros x. rewrite offset_slot_eq by exact HM0. rewrite Hc. reflexivity. }
  split; [rewrite Heq, Hslot; reflexivity |].
  intros id' Hid' H'. rewrite Heq in H'. injection H' as H'.
  apply (affine_mod_injective M (multiplier M n) (shift_term M n));
    [lia | apply multiplier_coprime | exact Hid' | exact Hid | congruence].
Qed.

Lemma offset_slot_permutes_slots_witness :
  Core.init default_config = Ok default_engine
  /\ 0 <= 5 < Core.slots_M default_config
  /\ exists id,
      0 <= id < Core.slots_M default_config
      /\ Core.offset_slot default_engine id 0 = Ok 5
      /\ forall id', 0 <= id' < Core.slots_M default_config ->
                     Core.offset_slot default_engine id' 0 = Ok 5 -> id' = id.
Proof.
  assert (H1 : Core.init default_config = Ok default_engine) by reflexivity.
  assert (H2 : 0 <= 5 < Core.slots_M default_config) by (simpl; lia).
  repeat (split; [assumption |]).
  exact (offset_slot_permutes_slots default_config default_engine 0 5 H1 H2).
Defined.

(** ** Powers of two *)

Lemma is_power_of_two_pow (x : Z) :
  Tests.is_power_of_two x = true -> exists e, 0 <= e /\ x = 2 ^ e.
Proof.
  unfold Tests.is_power_of_two. rewrite Bool.andb_true_iff, Z.ltb_lt, Z.eqb_eq.
  intros [Hx Hland].
  pose proof (Z.log2_nonneg x) as He.
  destruct (Z.log2_spec x Hx) as [Hlo Hhi].
  exists (Z.log2 x). split; [exact He |].
  destruct (Z.eq_dec x (2 ^ Z.log2 x)) as [E | Hne]; [exact E | exfalso].
  assert (Hlog : Z.log2 (x - 1) = Z.log2 x).
  { apply Z.log2_unique; [exact He | lia]. }
  assert (Hb1 : Z.testbit x (Z.log2 x) = true) by (apply Z.bit_log2; lia).
  assert (Hb2 : Z.testbit (x - 1) (Z.log2 x) = true).
  { rewrite <- Hlog. apply Z.bit_log2.
    pose proof (Z.pow_pos_nonneg 2 (Z.log2 x) ltac:(lia) He). lia. }
  pose proof (Z.land_spec x (x - 1) (Z.log2 x)) as Hspec.
  rewrite Hland, Z.bits_0, Hb1, Hb2 in Hspec. discriminate.
Qed.

Lemma lor_1_mod_pow2_odd (e n : Z) :
  1 <= e -> Z.odd (Z.lor n 1 mod 2 ^ e) = true.
Proof.
  intros He. rewrite <- Z.bit0_odd, Z.mod_pow2_bits_low by lia.
  rewrite Z.lor_spec, Bool.orb_true_r. reflexivity.
Qed.

(** The test helper [is_power_of_two] decides exactly the powers of two:
    it holds of [x] if and only if [x = 2 ^ e] for some [e >= 0]. *)
Theorem is_power_of_two_correct (x : Z) :
  Tests.is_power_of_two x = true <-> exists e, 0 <= e /\ x = 2 ^ e.
Proof.
  split; [apply is_power_of_two_pow |].
  intros (e & He & ->).
  unfold Tests.is_power_of_two. rewrite Bool.andb_true_iff, Z.ltb_lt, Z.eqb_eq.
  split; [apply Z.pow_pos_nonneg; lia |].
  rewrite Z.sub_1_r, <- Z.ones_equiv, Z.land_ones by exact He.
  apply Z.mod_same. pose proof (Z.pow_pos_nonneg 2 e ltac:(lia) He). lia.
Qed.

(** On a power-of-two modulus the invertibility fallback is never taken:
    the multiplier is the odd residue [(n | 1) mod M] itself, and it is
    odd. *)
Theorem affine_params_power_of_two
    (c : Core.BackoffConfig) (b : Core.CollatzBackoff) (k : Z) :
  Core.init c = Ok b ->
  Tests.is_power_of_two (Core.slots_M c) = true ->
  let n := Core.collatz_iter (Core.collatz_seed c) (k + 1) in
  Core.affine_params b k
  = Ok (Z.lor n 1 mod Core.slots_M c, Z.shiftr n 3 mod Core.slots_M c)
  /\ Z.odd (Z.lor n 1 mod Core.slots_M c) = true.
Proof.
  intros Hinit Hpow n. engine_bounds Hinit Hc HM.
  apply is_power_of_two_pow in Hpow. destruct Hpow as (e & He & HMe).
  assert (He1 : 1 <= e).
  { destruct (Z.eq_dec e 0) as [-> | Hne]; [simpl in HMe; lia | lia]. }
  pose proof (lor_1_mod_pow2_odd e n He1) as Hodd.
  assert (Hres : odd_residue (2 ^ e) n = Z.lor n 1 mod 2 ^ e).
  { unfold odd_residue.
    destruct (Z.eqb_spec (Z.lor n 1 mod 2 ^ e) 0) as [E | _];
      [| reflexivity].
    rewrite E in Hodd. discriminate. }
  pose proof (odd_coprime_pow2 _ e He Hodd) as Hg.
  rewrite affine_params_eq by (rewrite Hc; lia). rewrite Hc.
  fold n. rewrite HMe. unfold multiplier, shift_term.
  rewrite Hres, Hg. simpl. split; [reflexivity | exact Hodd].
Qed.

Lemma affine_params_power_of_two_witness :
  Core.init default_config = Ok default_engine
  /\ Tests.is_power_of_two (Core.slots_M default_config) = true
  /\ (let n := Core.collatz_iter (Core.collatz_seed default_config) (3 + 1) in
      Core.affine_params default_engine 3
      = Ok (Z.lor n 1 mod Core.slots_M default_config,
            Z.shiftr n 3 mod Core.slots_M default_config)
      /\ Z.odd (Z.lor n 1 mod Core.slots_M default_config) = true).
Proof.
  assert (H1 : Core.init default_config = Ok default_engine) by reflexivity.
  assert (H2 : Tests.is_power_of_two (Core.slots_M default_config) = true)
    by reflexivity.
  repeat (split; [assumption |]).
  exact (affine_params_power_of_two default_config default_engine 3 H1 H2).
Defined.

(** ** Trajectories of the seed *)

Lemma collatz_step_positive (n : Z) :
  0 < n -> 0 < Core.collatz_step n <= 2 * n.
Proof.
  intros Hn. unfold Core.collatz_step.
  pose proof (Z.mod_pos_bound n 2 ltac:(lia)) as Hr.
  pose proof (Z.div_mod n 2 ltac:(lia)) as Hd.
  destruct (Z.eqb_spec (n mod 2) 0) as [E | E].
  - assert (n = 2 * (n / 2)) by lia. lia.
  - assert (Hr1 : n mod 2 = 1) by lia.
    replace (3 * n + 1) with ((3 * (n / 2) + 2) * 2) by lia.
    rewrite Z.div_mul by lia. lia.
Qed.

(** The two branches of [collatz_step] divide exactly: twice the result
    is [n] on an even [n] and [3 n + 1] on an odd one. *)
Lemma collatz_step_exact (n : Z) :
  2 * Core.collatz_step n = if Z.even n then n else 3 * n + 1.
Proof.
  rewrite collatz_step_even_odd.
  pose proof (Z.mod_pos_bound n 2 ltac:(lia)) as Hr.
  pose proof (Z.div_mod n 2 ltac:(lia)) as Hd.
  rewrite Zeven_mod.
  destruct (Z.eqb_spec (n mod 2) 0) as [E | E]; [lia |].
  replace (3 * n + 1) with ((3 * (n / 2) + 2) * 2) at 1 by lia.
  rewrite Z.div_mul by lia. lia.
Qed.

Lemma collatz_loop_positive (fuel : nat) (n : Z) :
  0 < n -> 0 < Core.collatz_loop fuel n <= 2 ^ Z.of_nat fuel * n.
Proof.
  revert n. induction fuel as [| fuel IH]; intros n Hn.
  - cbn [Core.collatz_loop]. change (Z.of_nat 0) with 0.
    rewrite Z.pow_0_r. lia.
  - cbn [Core.collatz_loop].
    pose proof (collatz_step_positive n Hn) as Hs.
    specialize (IH (Core.collatz_step n) ltac:(lia)).
    rewrite Nat2Z.inj_succ, Z.pow_succ_r by lia.
    pose proof (Z.pow_pos_nonneg 2 (Z.of_nat fuel) ltac:(lia) ltac:(lia)).
    nia.
Qed.

(** A positive seed never degenerates: every iterate is positive (so the
    fixed point 0 is never reached) and at most [2 ^ k] times the seed. *)
Theorem collatz_iter_positive (seed k : Z) :
  0 < seed ->
  0 <= k ->
  0 < Core.collatz_iter seed k <= 2 ^ k * seed.
Proof.
  intros Hs Hk. unfold Core.collatz_iter.
  pose proof (collatz_loop_positive (Z.to_nat k) seed Hs) as H.
  rewrite Z2Nat.id in H by exact Hk. exact H.
Qed.

Lemma collatz_iter_positive_witness :
  0 < 27 /\ 0 <= 5 /\ 0 < Core.collatz_iter 27 5 <= 2 ^ 5 * 27.
Proof.
  assert (H1 : 0 < 27) by lia.
  assert (H2 : 0 <= 5) by lia.
  split; [exact H1 |]. split; [exact H2 |].
  exact (collatz_iter_positive 27 5 H1 H2).
Defined.

Lemma collatz_loop_one (fuel : nat) :
  Core.collatz_loop fuel 1 = 1 \/ Core.collatz_loop fuel 1 = 2.
Proof.
  assert (H : (Core.collatz_loop fuel 1 = 1 \/ Core.collatz_loop fuel 1 = 2)
              /\ (Core.collatz_loop fuel 2 = 1
                  \/ Core.collatz_loop fuel 2 = 2)).
  { induction fuel as [| fuel [IH1 IH2]]; [split; [left | right]; reflexivity |].
    split; cbn [Core.collatz_loop].
    - change (Core.collatz_step 1) with 2. exact IH2.
    - change (Core.collatz_step 2) with 1. exact IH1. }
  exact (proj1 H).
Qed.

Lemma collatz_loop_add (f1 f2 : nat) (n : Z) :
  Core.collatz_loop (f1 + f2) n
  = Core.collatz_loop f2 (Core.collatz_loop f1 n).
Proof.
  revert n. induction f1 as [| f1 IH]; intros n; [reflexivity |].
  simpl. apply IH.
Qed.

(** Once the trajectory of the seed has reached 1 (after [j] steps), every
    later step [k >= j - 1] has the additive term 0 and the multiplier 1
    or 3: the schedule keeps alternating between at most two
    permutations, and id 0 always gets slot 0. *)
Theorem affine_params_after_reaching_one
    (c : Core.BackoffConfig) (b : Core.CollatzBackoff) (j k : Z) :
  Core.init c = Ok b ->
  0 <= j ->
  Core.collatz_iter (Core.collatz_seed c) j = 1 ->
  j <= k + 1 ->
  (exists a, Core.affine_params b k = Ok (a, 0) /\ (a = 1 \/ a = 3))
  /\ Core.offset_slot b 0 k = Ok 0.
Proof.
  intros Hinit Hj Hone Hk. engine_bounds Hinit Hc HM.
  assert (HM0 : Core.slots_M (Core.cfg b) <> 0) by (rewrite Hc; lia).
  assert (Hn : Core.collatz_iter (Core.collatz_seed c) (k + 1) = 1
               \/ Core.collatz_iter (Core.collatz_seed c) (k + 1) = 2).
  { unfold Core.collatz_iter in *.
    replace (Z.to_nat (k + 1))
      with (Z.to_nat j + Z.to_nat (k + 1 - j))%nat by lia.
    rewrite collatz_loop_add, Hone. apply collatz_loop_one. }
  rewrite offset_slot_eq, affine_params_eq by exact HM0. rewrite Hc.
  set (M := Core.slots_M c) in *.
  set (n := Core.collatz_iter (Core.collatz_seed c) (k + 1)) in *.
  assert (Hb : shift_term M n = 0).
  { unfold shift_term. destruct Hn as [-> | ->]; apply Z.mod_0_l; lia. }
  assert (Ha : multiplier M n = 1 \/ multiplier M n = 3).
  { unfold multiplier.
    destruct (Z.gcd (odd_residue M n) M =? 1); simpl; [| left; reflexivity].
    unfold odd_residue.
    destruct (Z.eqb_spec (Z.lor n 1 mod M) 0) as [E | E]; [left; reflexivity |].
    destruct Hn as [-> | ->].
    - left. change (Z.lor 1 1) with 1. apply Z.mod_small; lia.
    - change (Z.lor 2 1) with 3 in *.
      destruct (Z_lt_le_dec 3 M) as [H3 | H3].
      + right. apply Z.mod_small; lia.
      + assert (HM23 : M = 2 \/ M = 3) by lia.
        destruct HM23 as [E2 | E3].
        * left. rewrite E2. reflexivity.
        * exfalso. apply E. rewrite E3. reflexivity. }
  rewrite Hb. split.
  - eexists; split; [reflexivity | exact Ha].
  - rewrite Z.mul_0_r, Z.add_0_l, Z.mod_0_l by lia. reflexivity.
Qed.

Lemma affine_params_after_reaching_one_witness :
  Core.init default_config = Ok default_engine
  /\ 0 <= 70
  /\ Core.collatz_iter (Core.collatz_seed default_config) 70 = 1
  /\ 70 <= 75 + 1
  /\ ((exists a, Core.affine_params default_engine 75 = Ok (a, 0)
                 /\ (a = 1 \/ a = 3))
      /\ Core.offset_slot default_engine 0 75 = Ok 0).
Proof.
  assert (H1 : Core.init default_config = Ok default_engine) by reflexivity.
  assert (H2 : 0 <= 70) by lia.
  assert (H3 : Core.collatz_iter (Core.collatz_seed default_config) 70 = 1)
    by (vm_compute; reflexivity).
  assert (H4 : 70 <= 75 + 1) by lia.
  split; [exact H1 |]. split; [exact H2 |]. split; [exact H3 |].
  split; [exact H4 |].
  exact (affine_params_after_reaching_one
           default_config default_engine 70 75 H1 H2 H3 H4).
Defined.

(** The degenerate seed 0: at every step the parameters are [(1, 0)], so
    the slot of an id is its residue modulo [M] and never changes from
    one retry to the next. *)
Theorem seed_zero_is_identity
    (c : Core.BackoffConfig) (b : Core.CollatzBackoff) (node_id k : Z) :
  Core.init c = Ok b ->
  Core.collatz_seed c = 0 ->
  Core.affine_params b k = Ok (1, 0)
  /\ Core.offset_slot b node_id k = Ok (node_id mod Core.slots_M c).
Proof.
  intros Hinit Hseed. engine_bounds Hinit Hc HM.
  assert (HM0 : Core.slots_M (Core.cfg b) <> 0) by (rewrite Hc; lia).
  rewrite offset_slot_eq, affine_params_eq by exact HM0. rewrite Hc, Hseed.
  unfold Core.collatz_iter. rewrite collatz_loop_zero.
  set (M := Core.slots_M c) in *.
  assert (Hm : multiplier M 0 = 1).
  { unfold multiplier, odd_residue. change (Z.lor 0 1) with 1.
    rewrite Z.mod_small by lia. change (1 =? 0) with false. cbv zeta iota.
    destruct (negb (Z.gcd 1 M =? 1)); reflexivity. }
  assert (Hs : shift_term M 0 = 0) by (unfold shift_term; apply Z.mod_0_l; lia).
  rewrite Hm, Hs, Z.mul_1_l, Z.add_0_r. split; reflexivity.
Qed.

Lemma seed_zero_is_identity_witness :
  Core.init (config_with 16 0) = Ok {| Core.cfg := config_with 16 0 |}
  /\ Core.collatz_seed (config_with 16 0) = 0
  /\ (Core.affine_params {| Core.cfg := config_with 16 0 |} 4 = Ok (1, 0)
      /\ Core.offset_slot {| Core.cfg := config_with 16 0 |} 21 4
         = Ok (21 mod Core.slots_M (config_with 16 0))).
Proof.
  assert (H1 : Core.init (config_with 16 0)
               = Ok {| Core.cfg := config_with 16 0 |}) by reflexivity.
  assert (H2 : Core.collatz_seed (config_with 16 0) = 0) by reflexivity.
  split; [exact H1 |]. split; [exact H2 |].
  exact (seed_zero_is_identity (config_with 16 0) _ 21 4 H1 H2).
Defined.

(** Negative steps are not rejected and all behave alike: [range(k + 1)]
    is empty, so the parameters come from the raw seed, as at step -1. *)
Theorem affine_params_negative_step
    (c : Core.BackoffConfig) (b : Core.CollatzBackoff) (node_id k : Z) :
  Core.init c = Ok b ->
  k < 0 ->
  Core.affine_params b k
  = Ok (multiplier (Core.slots_M c) (Core.collatz_seed c),
        shift_term (Core.slots_M c) (Core.collatz_seed c))
  /\ Core.affine_params b k = Core.affine_params b (-1)
  /\ Core.offset_slot b node_id k = Core.offset_slot b node_id (-1).
Proof.
  intros Hinit Hk. engine_bounds Hinit Hc HM.
  assert (HM0 : Core.slots_M (Core.cfg b) <> 0) by (rewrite Hc; lia).
  assert (Hn : forall k', k' < 0 ->
                 Core.collatz_iter (Core.collatz_seed (Core.cfg b)) (k' + 1)
                 = Core.collatz_seed c).
  { intros k' Hk'. unfold Core.collatz_iter.
    replace (Z.to_nat (k' + 1)) with 0%nat by lia. rewrite Hc. reflexivity. }
  rewrite !offset_slot_eq, !affine_params_eq by exact HM0.
  rewrite (Hn k Hk), (Hn (-1) ltac:(lia)), Hc.
  repeat split; reflexivity.
Qed.

Lemma affine_params_negative_step_witness :
  Core.init default_config = Ok default_engine
  /\ -5 < 0
  /\ (Core.affine_params default_engine (-5)
      = Ok (multiplier (Core.slots_M default_config)
              (Core.collatz_seed default_config),
            shift_term (Core.slots_M default_config)
              (Core.collatz_seed default_config))
      /\ Core.affine_params default_engine (-5)
         = Core.affine_params default_engine (-1)
      /\ Core.offset_slot default_engine 9 (-5)
         = Core.offset_slot default_engine 9 (-1)).
Proof.
  assert (H1 : Core.init default_config = Ok default_engine) by reflexivity.
  assert (H2 : -5 < 0) by lia.
  split; [exact H1 |]. split; [exact H2 |].
  exact (affine_params_negative_step default_config default_engine 9 (-5)
           H1 H2).
Defined.

(** ** Bounds on the wait *)

(** Whenever the base wait [B] and the cap [C] are computed, the wait of
    any id lies between [min C B] and [min C (B + (M-1) * slot_ms * 1000)]:
    jitter never shortens the exponential base and adds less than [M]
    slots; and once the base has reached the cap every id waits exactly
    the cap. *)
Theorem wait_micros_between_base_and_cap
    (c : Core.BackoffConfig) (b : Core.CollatzBackoff) (node_id k B C : Z) :
  Core.init c = Ok b ->
  Core.base_us b k = Ok B ->
  Core.cap_us b = Ok C ->
  exists w,
    Core.wait_micros b node_id k = Ok w
    /\ Z.min C B <= w
    /\ w <= Z.min C (B + (Core.slots_M c - 1) * Core.slot_ms c * 1000)
    /\ (C <= B -> w = C).
Proof.
  intros Hinit HB HC.
  pose proof (init_Ok_inv c b Hinit) as (Hc & _ & Hms & HM & _).
  assert (HM0 : Core.slots_M (Core.cfg b) <> 0) by (rewrite Hc; lia).
  pose proof (offset_slot_eq b node_id k HM0) as Hs.
  rewrite (wait_micros_eq b node_id k B C _ HB HC Hs).
  rewrite Hc in *.
  set (M := Core.slots_M c) in *.
  match goal with
  | |- context [?x mod M] =>
      pose proof (Z.mod_pos_bound x M ltac:(lia)) as Hr; set (s := x mod M) in *
  end.
  assert (H0 : 0 <= s * Core.slot_ms c) by nia.
  assert (H1 : s * Core.slot_ms c <= (M - 1) * Core.slot_ms c) by nia.
  eexists. split; [reflexivity |]. lia.
Qed.

Lemma wait_micros_between_base_and_cap_witness :
  Core.init default_config = Ok default_engine
  /\ Core.base_us default_engine 2 = Ok 200000
  /\ Core.cap_us default_engine = Ok 10000000
  /\ exists w,
      Core.wait_micros default_engine 7 2 = Ok w
      /\ Z.min 10000000 200000 <= w
      /\ w <= Z.min 10000000
                (200000 + (Core.slots_M default_config - 1)
                          * Core.slot_ms default_config * 1000)
      /\ (10000000 <= 200000 -> w = 10000000).
Proof.
  assert (H1 : Core.init default_config = Ok default_engine) by reflexivity.
  assert (H2 : Core.base_us default_engine 2 = Ok 200000)
    by (vm_compute; reflexivity).
  assert (H3 : Core.cap_us default_engine = Ok 10000000)
    by (vm_compute; reflexivity).
  split; [exact H1 |]. split; [exact H2 |]. split; [exact H3 |].
  exact (wait_micros_between_base_and_cap
           default_config default_engine 7 2 200000 10000000 H1 H2 H3).
Defined.

(** With the default base delay 0.05 s and cap 10 s, from step 8 up to step
    1008 every participant waits exactly the cap, 10 000 000 microseconds,
    whatever its id, the modulus, the slot width and the seed: the jitter
    is gone. *)
Theorem default_waits_collapse_from_step_8
    (c : Core.BackoffConfig) (b : Core.CollatzBackoff) (node_id k : Z) :
  Core.init c = Ok b ->
  Core.base_seconds c = f0_05 ->
  Core.cap_seconds c = f10 ->
  8 <= k <= 1008 ->
  Core.wait_micros b node_id k = Ok 10000000.
Proof.
  intros Hinit Hbase Hcap Hk.
  pose proof (init_Ok_inv c b Hinit) as (Hc & _ & Hms & HM & _).
  assert (HM0 : Core.slots_M (Core.cfg b) <> 0) by (rewrite Hc; lia).
  assert (HB : Core.base_us b k = Ok (50000 * 2 ^ k)).
  { apply base_us_default; [rewrite Hc; exact Hbase | lia]. }
  assert (HC : Core.cap_us b = Ok 10000000).
  { apply cap_us_default. rewrite Hc; exact Hcap. }
  rewrite (wait_micros_eq b node_id k _ _ _ HB HC (offset_slot_eq b node_id k HM0)).
  f_equal. rewrite Hc.
  match goal with
  | |- context [?x mod Core.slots_M c] =>
      pose proof (Z.mod_pos_bound x (Core.slots_M c) ltac:(lia)) as Hr;
      set (s := x mod Core.slots_M c) in *
  end.
  assert (H0 : 0 <= s * Core.slot_ms c) by nia.
  assert (2 ^ 8 <= 2 ^ k) by (apply Z.pow_le_mono_r; lia).
  change (2 ^ 8) with 256 in *. lia.
Qed.

Lemma default_waits_collapse_from_step_8_witness :
  Core.init default_config = Ok default_engine
  /\ Core.base_seconds default_config = f0_05
  /\ Core.cap_seconds default_config = f10
  /\ 8 <= 9 <= 1008
  /\ Core.wait_micros default_engine 3 9 = Ok 10000000.
Proof.
  assert (H1 : Core.init default_config = Ok default_engine) by reflexivity.
  assert (H2 : Core.base_seconds default_config = f0_05) by reflexivity.
  assert (H3 : Core.cap_seconds default_config = f10) by reflexivity.
  assert (H4 : 8 <= 9 <= 1008) by lia.
  split; [exact H1 |]. split; [exact H2 |]. split; [exact H3 |].
  split; [exact H4 |].
  exact (default_waits_collapse_from_step_8
           default_config default_engine 3 9 H1 H2 H3 H4).
Defined.

(** The wait, in microseconds and in seconds, depends on the id only
    through its residue modulo [M]: ids that are congruent modulo [M] wait
    identically (and fail identically), at every step. *)
Theorem wait_depends_on_residue
    (c : Core.BackoffConfig) (b : Core.CollatzBackoff) (id1 id2 k : Z) :
  Core.init c = Ok b ->
  id1 mod Core.slots_M c = id2 mod Core.slots_M c ->
  Core.wait_micros b id1 k = Core.wait_micros b id2 k
  /\ Core.wait_seconds b id1 k = Core.wait_seconds b id2 k.
Proof.
  intros Hinit Hmod. engine_bounds Hinit Hc HM.
  assert (HM0 : Core.slots_M (Core.cfg b) <> 0) by (rewrite Hc; lia).
  assert (Hslot : Core.offset_slot b id1 k = Core.offset_slot b id2 k).
  { rewrite !offset_slot_eq by exact HM0. rewrite Hc. f_equal.
    rewrite (Z.add_mod (_ * id1)), (Z.add_mod (_ * id2)) by lia.
    rewrite (Z.mul_mod _ id1), (Z.mul_mod _ id2) by lia.
    rewrite Hmod. reflexivity. }
  assert (Hw : Core.wait_micros b id1 k = Core.wait_micros b id2 k).
  { unfold Core.wait_micros, Core.jitter_us. rewrite Hslot. reflexivity. }
  split; [exact Hw |].
  unfold Core.wait_seconds. rewrite Hw. reflexivity.
Qed.

Lemma wait_depends_on_residue_witness :
  Core.init default_config = Ok default_engine
  /\ 5 mod Core.slots_M default_config = 1029 mod Core.slots_M default_config
  /\ (Core.wait_micros default_engine 5 2 = Core.wait_micros default_engine 1029 2
      /\ Core.wait_seconds default_engine 5 2
         = Core.wait_seconds default_engine 1029 2).
Proof.
  assert (H1 : Core.init default_config = Ok default_engine) by reflexivity.
  assert (H2 : 5 mod Core.slots_M default_config
               = 1029 mod Core.slots_M default_config) by reflexivity.
  split; [exact H1 |]. split; [exact H2 |].
  exact (wait_depends_on_residue default_config default_engine 5 1029 2 H1 H2).
Defined.

(** ** The script's slot *)

Lemma script_offset_eq (node_id k M seed : Z) :
  M <> 0 ->
  Script.collatz_perm_offset node_id k M seed
  = Ok ((odd_residue M (Core.collatz_iter seed (k + 1)) * node_id
         + shift_term M (Core.collatz_iter seed (k + 1))) mod M).
Proof.
  intros HM. unfold Script.collatz_perm_offset.
  rewrite script_affine_params_eq by exact HM. simpl.
  apply mod_Ok; exact HM.
Qed.

(** The script does not validate its modulus: [collatz_perm_offset] raises
    [ZeroDivisionError] on [M = 0] (and only then); on a positive modulus
    it returns a slot in [0, M), and on a negative one a value in
    (M, 0]. *)
Theorem script_offset_range (node_id k M seed : Z) :
  (M = 0
   /\ Script.collatz_perm_offset node_id k M seed = Raise ZeroDivisionError)
  \/ (0 < M
      /\ exists s, Script.collatz_perm_offset node_id k M seed = Ok s
                   /\ 0 <= s < M)
  \/ (M < 0
      /\ exists s, Script.collatz_perm_offset node_id k M seed = Ok s
                   /\ M < s <= 0).
Proof.
  destruct (Z.lt_trichotomy M 0) as [HM | [-> | HM]].
  - right; right. split; [exact HM |]. rewrite script_offset_eq by lia.
    eexists; split; [reflexivity |]. apply Z.mod_neg_bound; exact HM.
  - left. split; reflexivity.
  - right; left. split; [exact HM |]. rewrite script_offset_eq by lia.
    eexists; split; [reflexivity |]. apply Z.mod_pos_bound; exact HM.
Qed.

(** The script's docstring guarantee holds on the recommended moduli: for a
    power-of-two [M], distinct ids less than [M] apart get distinct
    slots from [collatz_perm_offset]. *)
Theorem script_offset_injective_power_of_two (k M seed i j : Z) :
  Tests.is_power_of_two M = true ->
  0 <= i < M -> 0 <= j < M ->
  i <> j ->
  Script.collatz_perm_offset i k M seed
  <> Script.collatz_perm_offset j k M seed.
Proof.
  intros Hpow Hi Hj Hij. apply is_power_of_two_pow in Hpow.
  destruct Hpow as (e & He & HMe).
  rewrite !script_offset_eq by lia. intros Heq. injection Heq as Heq.
  apply Hij.
  destruct (Z.eq_dec e 0) as [-> | Hne]; [simpl in HMe; lia |].
  eapply affine_mod_injective; [| | exact Hi | exact Hj | exact Heq]; [lia |].
  rewrite HMe. apply odd_coprime_pow2; [exact He |].
  apply odd_residue_odd_pow2. lia.
Qed.

Lemma script_offset_injective_power_of_two_witness :
  Tests.is_power_of_two 64 = true
  /\ 0 <= 3 < 64 /\ 0 <= 5 < 64
  /\ 3 <> 5
  /\ Script.collatz_perm_offset 3 2 64 27
     <> Script.collatz_perm_offset 5 2 64 27.
Proof.
  assert (H1 : Tests.is_power_of_two 64 = true) by reflexivity.
  assert (H2 : 0 <= 3 < 64) by lia.
  assert (H3 : 0 <= 5 < 64) by lia.
  assert (H4 : 3 <> 5) by lia.
  split; [exact H1 |]. split; [exact H2 |]. split; [exact H3 |].
  split; [exact H4 |].
  exact (script_offset_injective_power_of_two 2 64 27 3 5 H1 H2 H3 H4).
Defined.

(** ** The collision benchmark *)

Lemma range_In (n x : Z) : In x (Bench.range n) <-> 0 <= x < n.
Proof.
  unfold Bench.range. rewrite in_map_iff. split.
  - intros (i & <- & Hi). apply in_seq in Hi. lia.
  - intros Hx. exists (Z.to_nat x). split; [lia |]. apply in_seq. lia.
Qed.

Lemma range_NoDup (n : Z) : NoDup (Bench.range n).
Proof.
  unfold Bench.range. apply NoDup_map_NoDup_ForallPairs.
  - intros x y _ _ H. lia.
  - apply seq_NoDup.
Qed.

Lemma range_length (n : Z) : List.length (Bench.range n) = Z.to_nat n.
Proof. unfold Bench.range. rewrite length_map, length_seq. reflexivity. Qed.

Lemma comprehension_offsets (b : Core.CollatzBackoff) (k : Z) (l : list Z) :
  Core.slots_M (Core.cfg b) <> 0 ->
  Bench.comprehension (fun i => Core.offset_slot b i k) l
  = Ok (map (fun i =>
               (multiplier (Core.slots_M (Core.cfg b))
                  (Core.collatz_iter (Core.collatz_seed (Core.cfg b)) (k + 1))
                * i
                + shift_term (Core.slots_M (Core.cfg b))
                    (Core.collatz_iter (Core.collatz_seed (Core.cfg b))
                       (k + 1)))
               mod Core.slots_M (Core.cfg b)) l).
Proof.
  intros HM. induction l as [| x l IH]; [reflexivity |].
  cbn [Bench.comprehension map]. rewrite offset_slot_eq by exact HM.
  cbn [bind]. rewrite IH. reflexivity.
Qed.

(** The number of distinct slots taken by the ids [0 .. n-1] under an
    invertible affine map is [min n M] (none for [n <= 0]). *)
Lemma distinct_affine (M a b' n : Z) :
  0 < M -> Z.gcd a M = 1 ->
  Bench.distinct (map (fun i => (a * i + b') mod M) (Bench.range n))
  = Z.min (Z.max 0 n) M.
Proof.
  intros HM Hg. unfold Bench.distinct.
  set (f := fun i => (a * i + b') mod M).
  destruct (Z_le_gt_dec n M) as [Hle | Hgt].
  - assert (Hnd : NoDup (map f (Bench.range n))).
    { apply NoDup_map_NoDup_ForallPairs; [| apply range_NoDup].
      intros x y Hx Hy Hxy. apply range_In in Hx, Hy.
      apply (affine_mod_injective M a b'); try lia; exact Hxy. }
    rewrite (nodup_fixed_point Z.eq_dec Hnd), length_map, range_length. lia.
  - assert (Hup : (List.length (nodup Z.eq_dec (map f (Bench.range n)))
                   <= List.length (Bench.range M))%nat).
    { apply NoDup_incl_length; [apply NoDup_nodup |].
      intros s Hs. apply nodup_In in Hs. apply in_map_iff in Hs.
      destruct Hs as (i & <- & _). apply range_In.
      apply Z.mod_pos_bound; exact HM. }
    assert (Hlo : (List.length (Bench.range M)
                   <= List.length (nodup Z.eq_dec (map f (Bench.range n))))%nat).
    { apply NoDup_incl_length; [apply range_NoDup |].
      intros s Hs. apply range_In in Hs. apply nodup_In, in_map_iff.
      destruct (affine_mod_surjective M a b' s HM Hg Hs) as (i & Hi & His).
      exists i. split; [exact His | apply range_In; lia]. }
    rewrite range_length in Hup, Hlo. lia.
Qed.

Lemma dict_set_fresh (d : list (Z * Z)) (k v : Z) :
  ~ In k (map fst d) -> Bench.dict_set d k v = d ++ [(k, v)].
Proof.
  induction d as [| [k' v'] d IH]; intros Hk; [reflexivity |].
  cbn [Bench.dict_set]. cbn [map fst In] in Hk.
  destruct (Z.eqb_spec k' k) as [E | _]; [exfalso; auto |].
  rewrite IH by auto. reflexivity.
Qed.

Lemma run_collatz_loop_constant
    (b : Core.CollatzBackoff) (n : Z) (ks : list Z) (acc : list (Z * Z)) :
  Core.slots_M (Core.cfg b) > 1 ->
  NoDup ks ->
  (forall k, In k ks -> ~ In k (map fst acc)) ->
  Bench.run_collatz_loop b n ks acc
  = Ok (acc ++ map (fun k =>
                      (k, n - Z.min (Z.max 0 n) (Core.slots_M (Core.cfg b))))
                 ks).
Proof.
  intros HM. revert acc.
  induction ks as [| k ks IH]; intros acc Hnd Hfresh.
  - cbn. rewrite app_nil_r. reflexivity.
  - cbn [Bench.run_collatz_loop].
    rewrite comprehension_offsets by lia. cbn [bind].
    rewrite distinct_affine by (try apply multiplier_coprime; lia).
    rewrite dict_set_fresh by (apply Hfresh; left; reflexivity).
    inversion Hnd as [| ? ? Hk Hnd']; subst.
    rewrite IH.
    + rewrite <- app_assoc. reflexivity.
    + exact Hnd'.
    + intros k' Hk' Hin. rewrite map_app, in_app_iff in Hin.
      destruct Hin as [Hin | Hin].
      * apply (Hfresh k'); [right; exact Hk' | exact Hin].
      * cbn in Hin. destruct Hin as [-> | []]. contradiction.
Qed.

(** [run_collatz] refuses a modulus of 1 or less with the configuration
    error, even for zero steps; otherwise it reports for every step
    [0 .. steps-1], in order, the same number
    [replicas - min (max 0 replicas) slots_M]: no collision within
    capacity, exactly the excess [replicas - slots_M] beyond it (and the
    negative count itself for a negative [replicas]). *)
Theorem run_collatz_counts_the_excess (slots_M replicas steps seed : Z) :
  Bench.run_collatz slots_M replicas steps seed
  = if slots_M <=? 1
    then Raise (ValueError "slots_M must be > 1")
    else Ok (map (fun k =>
                    (k, replicas - Z.min (Z.max 0 replicas) slots_M))
               (Bench.range steps)).
Proof.
  unfold Bench.run_collatz, Core.init, Core.validate. cbn [config_with
    Core.base_seconds Core.slot_ms Core.slots_M Core.cap_seconds].
  change (Py.fle f0_05 Py.fzero) with false.
  change (Py.fle f10 Py.fzero) with false.
  change (1 <=? 0) with false. cbv iota.
  destruct (Z.leb_spec slots_M 1) as [HM | HM]; [reflexivity |].
  cbn [bind].
  rewrite run_collatz_loop_constant; cbn [Core.cfg config_with Core.slots_M];
    try lia; [reflexivity | apply range_NoDup | intros k _ []].
Qed.

(** ** Text: digits and their values *)

Lemma isdigit_ord (c : ascii) :
  Text.isdecimal c = true -> 48 <= Text.ord c <= 57.
Proof. unfold Text.isdecimal. intros H. lia. Qed.

Lemma isdigit_not_space (c : ascii) :
  Text.isdecimal c = true -> Text.isspace c = false.
Proof. intros H. apply isdigit_ord in H. unfold Text.isspace. lia. Qed.

Lemma string_forall_app (P : ascii -> bool) (s t : string) :
  string_forall P (s ++ t) = string_forall P s && string_forall P t.
Proof.
  induction s as [| c s IH]; [reflexivity |].
  cbn [append string_forall]. rewrite IH, Bool.andb_assoc. reflexivity.
Qed.

Lemma string_forall_impl (P Q : ascii -> bool) (s : string) :
  (forall c, P c = true -> Q c = true) ->
  string_forall P s = true -> string_forall Q s = true.
Proof.
  intros HPQ. induction s as [| c s IH]; [reflexivity |].
  cbn [string_forall]. rewrite !Bool.andb_true_iff. intros [H1 H2]. auto.
Qed.

Lemma string_of_uint_digits (d : uint) :
  all_digits (NilEmpty.string_of_uint d) = true.
Proof. induction d; [reflexivity | exact IHd ..]. Qed.

Lemma digits_value_nonneg (d : string) (acc : Z) :
  0 <= acc -> all_digits d = true -> 0 <= Text.digits_value acc d.
Proof.
  revert acc. induction d as [| c d IH]; intros acc Hacc; [intros _; exact Hacc |].
  cbn [all_digits string_forall Text.digits_value].
  rewrite Bool.andb_true_iff. intros [Hc Hd]. apply isdigit_ord in Hc.
  apply IH; [lia | exact Hd].
Qed.

Lemma digits_value_of_uint (d : uint) (acc : Z) :
  Text.digits_value acc (NilEmpty.string_of_uint d)
  = acc * 10 ^ Z.of_N (DecimalPos.Unsigned.usize d)
    + Z.of_N (DecimalPos.Unsigned.of_lu (Decimal.rev d)).
Proof.
  revert acc.
  induction d; intros acc;
    [cbn; lia | ..];
    cbn [NilEmpty.string_of_uint Text.digits_value DecimalPos.Unsigned.usize];
    unfold Decimal.rev; cbn [Decimal.revapp];
    rewrite DecimalPos.Unsigned.of_lu_revapp;
    cbn [DecimalPos.Unsigned.of_lu];
    rewrite IHd;
    rewrite N2Z.inj_succ, Z.pow_succ_r by lia;
    rewrite N2Z.inj_add, N2Z.inj_mul, N2Z.inj_pow;
    match goal with
    | |- context [Text.ord ?c] =>
        let v := eval vm_compute in (Text.ord c) in
        change (Text.ord c) with v
    end;
    match goal with
    | |- context [Z.of_N ?n * Z.of_N 10 ^ _] =>
        let v := eval vm_compute in (Z.of_N n) in
        change (Z.of_N n) with v
    end;
    change (Z.of_N 10) with 10;
    generalize (10 ^ Z.of_N (DecimalPos.Unsigned.usize d));
    generalize (Z.of_N (DecimalPos.Unsigned.of_lu (Decimal.rev d)));
    intros; ring.
Qed.

Lemma digits_value_str (n : Z) :
  0 <= n -> Text.digits_value 0 (Text.str_of_nonneg n) = n.
Proof.
  intros Hn. unfold Text.str_of_nonneg.
  rewrite digits_value_of_uint, <- DecimalPos.Unsigned.of_uint_alt.
  change (Pos.of_uint (N.to_uint (Z.to_N n)))
    with (N.of_uint (N.to_uint (Z.to_N n))).
  rewrite DecimalN.Unsigned.of_to. lia.
Qed.

Lemma str_digits (n : Z) : all_digits (Text.str_of_nonneg n) = true.
Proof. apply string_of_uint_digits. Qed.

Lemma str_nonempty (n : Z) : Text.str_of_nonneg n <> EmptyString.
Proof.
  unfold Text.str_of_nonneg.
  destruct (Z.to_N n) as [| p]; [discriminate |].
  cbn [N.to_uint].
  pose proof (DecimalPos.Unsigned.to_uint_nonnil p) as H.
  destruct (Pos.to_uint p); [contradiction | discriminate ..].
Qed.

(** ** The ordinal pattern *)

Lemma ord_inj (c c' : ascii) : Text.ord c = Text.ord c' -> c = c'.
Proof.
  unfold Text.ord. intros H. apply N2Z.inj in H.
  rewrite <- (ascii_N_embedding c), <- (ascii_N_embedding c'), H.
  reflexivity.
Qed.

Lemma at_end_iff (t : string) :
  Helpers.at_end t = true <-> t = EmptyString \/ t = line_feed.
Proof.
  unfold Helpers.at_end, line_feed. split.
  - destruct t as [| c [| c' t]]; [auto | | discriminate].
    intros H. right. f_equal. apply ord_inj. apply Z.eqb_eq in H. exact H.
  - intros [-> | ->]; reflexivity.
Qed.

Lemma digits_span_spec (r : string) :
  r = (fst (Helpers.digits_span r) ++ snd (Helpers.digits_span r))%string
  /\ all_digits (fst (Helpers.digits_span r)) = true.
Proof.
  induction r as [| c r [IH1 IH2]]; [split; reflexivity |].
  cbn [Helpers.digits_span].
  destruct (Text.isdecimal c) eqn:Hc; [| split; reflexivity].
  destruct (Helpers.digits_span r) as [d t]. cbn [fst snd] in *.
  split; [cbn [append]; f_equal; exact IH1 |].
  cbn [all_digits string_forall]. rewrite Hc. exact IH2.
Qed.

Lemma digits_span_app (d t : string) :
  all_digits d = true ->
  t = EmptyString \/ t = line_feed ->
  Helpers.digits_span (d ++ t) = (d, t).
Proof.
  intros Hd Ht. induction d as [| c d IH].
  - destruct Ht as [-> | ->]; reflexivity.
  - cbn [all_digits string_forall] in Hd.
    apply Bool.andb_true_iff in Hd. destruct Hd as [Hc Hd].
    cbn [append Helpers.digits_span]. rewrite Hc, (IH Hd). reflexivity.
Qed.

Lemma match_suffix_sound (s d : string) :
  Helpers.match_suffix s = Some d ->
  exists t,
    s = (hyphen ++ d ++ t)%string
    /\ d <> EmptyString /\ all_digits d = true
    /\ (t = EmptyString \/ t = line_feed).
Proof.
  destruct s as [| c r]; [discriminate |]. cbn [Helpers.match_suffix].
  destruct (Z.eqb_spec (Text.ord c) 45) as [Hc | _]; [| discriminate].
  pose proof (digits_span_spec r) as [Hr Hd].
  destruct (Helpers.digits_span r) as [d' t]. cbn [fst snd] in *.
  destruct d' as [| c' d'']; [discriminate |].
  destruct (Helpers.at_end t) eqn:Ht; [| discriminate].
  intros H. injection H as <-.
  exists t. split.
  - unfold hyphen. cbn [append]. f_equal; [| exact Hr].
    apply ord_inj. exact Hc.
  - split; [discriminate |]. split; [exact Hd |].
    apply at_end_iff. exact Ht.
Qed.

Lemma match_suffix_complete (d t : string) :
  d <> EmptyString -> all_digits d = true ->
  t = EmptyString \/ t = line_feed ->
  Helpers.match_suffix (hyphen ++ d ++ t) = Some d.
Proof.
  intros Hne Hd Ht. unfold hyphen. cbn [append Helpers.match_suffix].
  change (Text.ord "-" =? 45) with true. cbv iota.
  rewrite (digits_span_app d t Hd Ht).
  destruct d as [| c d']; [contradiction |].
  replace (Helpers.at_end t) with true; [reflexivity |].
  symmetry. apply at_end_iff. exact Ht.
Qed.

Lemma match_suffix_no_hyphen (c : ascii) (r : string) :
  Text.ord c <> 45 -> Helpers.match_suffix (String c r) = None.
Proof.
  intros Hc. cbn [Helpers.match_suffix].
  destruct (Z.eqb_spec (Text.ord c) 45); [contradiction | reflexivity].
Qed.

Lemma ORD_RE_no_hyphen (s : string) :
  no_hyphen s = true -> Helpers.ORD_RE_match s = None.
Proof.
  induction s as [| c r IH]; [reflexivity |].
  cbn [no_hyphen string_forall]. rewrite Bool.andb_true_iff.
  intros [Hc Hr]. cbn [Helpers.ORD_RE_match].
  rewrite (IH Hr), match_suffix_no_hyphen by lia.
  destruct (Text.ord c =? 10); reflexivity.
Qed.

Lemma digits_then_end_no_hyphen (d t : string) :
  all_digits d = true -> t = EmptyString \/ t = line_feed ->
  no_hyphen (d ++ t) = true.
Proof.
  intros Hd Ht. unfold no_hyphen. rewrite string_forall_app.
  apply Bool.andb_true_iff. split.
  - apply (string_forall_impl Text.isdecimal); [| exact Hd].
    intros c Hc. apply isdigit_ord in Hc. lia.
  - destruct Ht as [-> | ->]; reflexivity.
Qed.

Lemma ORD_RE_complete (p d t : string) :
  no_line_feed p = true ->
  d <> EmptyString -> all_digits d = true ->
  t = EmptyString \/ t = line_feed ->
  Helpers.ORD_RE_match (p ++ hyphen ++ d ++ t) = Some d.
Proof.
  intros Hp Hne Hd Ht. induction p as [| c p IH].
  - cbn [append]. pose proof (match_suffix_complete d t Hne Hd Ht) as Hm.
    unfold hyphen in *. cbn [append] in *. cbn [Helpers.ORD_RE_match].
    rewrite (ORD_RE_no_hyphen _ (digits_then_end_no_hyphen d t Hd Ht)).
    change (Text.ord "-" =? 10) with false. cbv iota. exact Hm.
  - cbn [no_line_feed string_forall] in Hp.
    apply Bool.andb_true_iff in Hp. destruct Hp as [Hc Hp].
    cbn [append Helpers.ORD_RE_match].
    apply Bool.negb_true_iff in Hc. rewrite Hc, (IH Hp). reflexivity.
Qed.

Lemma ORD_RE_sound (s d : string) :
  Helpers.ORD_RE_match s = Some d ->
  exists p t,
    s = (p ++ hyphen ++ d ++ t)%string
    /\ no_line_feed p = true
    /\ d <> EmptyString /\ all_digits d = true
    /\ (t = EmptyString \/ t = line_feed).
Proof.
  induction s as [| c r IH]; [discriminate |].
  cbn [Helpers.ORD_RE_match].
  destruct (Text.ord c =? 10) eqn:Hc.
  - intros H. apply match_suffix_sound in H. destruct H as (t & Hs & H).
    exists EmptyString, t. split; [exact Hs | split; [reflexivity | exact H]].
  - destruct (Helpers.ORD_RE_match r) as [g |] eqn:Hr.
    + intros H. injection H as <-.
      destruct (IH eq_refl) as (p & t & Hs & Hp & H).
      exists (String c p), t. split; [cbn [append]; f_equal; exact Hs |].
      split; [| exact H].
      cbn [no_line_feed string_forall]. rewrite Hc. exact Hp.
    + intros H. apply match_suffix_sound in H. destruct H as (t & Hs & H).
      exists EmptyString, t.
      split; [exact Hs | split; [reflexivity | exact H]].
Qed.

(** The pattern of [statefulset_ordinal] matches exactly the names made of
    a prefix without line feed, a hyphen, one or more digits and an
    optional final line feed, and its group is that run of digits (the
    digits after the last hyphen). *)
Theorem ORD_RE_matches_hyphen_digits (s d : string) :
  Helpers.ORD_RE_match s = Some d <->
  exists p t,
    s = (p ++ hyphen ++ d ++ t)%string
    /\ no_line_feed p = true
    /\ d <> EmptyString /\ all_digits d = true
    /\ (t = EmptyString \/ t = line_feed).
Proof.
  split; [apply ORD_RE_sound |].
  intros (p & t & -> & Hp & Hne & Hd & Ht).
  apply ORD_RE_complete; assumption.
Qed.

(** ** The ordinal of a pod *)

Lemma string_app_nil_r (s : string) : (s ++ EmptyString)%string = s.
Proof. induction s as [| c s IH]; [reflexivity | cbn; f_equal; exact IH]. Qed.

Lemma string_app_assoc (s t u : string) :
  ((s ++ t) ++ u)%string = (s ++ t ++ u)%string.
Proof. induction s as [| c s IH]; [reflexivity | cbn; f_equal; exact IH]. Qed.

Lemma string_length_app (s t : string) :
  String.length (s ++ t) = (String.length s + String.length t)%nat.
Proof. induction s as [| c s IH]; [reflexivity | cbn; f_equal; exact IH]. Qed.

Lemma hash_loop_range (s : string) (h : Z) :
  0 <= h < 2 ^ 32 -> 0 <= Helpers.hash_loop s h < 2 ^ 32.
Proof.
  revert h. induction s as [| c s IH]; intros h Hh; [exact Hh |].
  cbn [Helpers.hash_loop]. apply IH.
  change 4294967295 with (Z.ones 32). rewrite Z.land_ones by lia.
  apply Z.mod_pos_bound. lia.
Qed.

Lemma exceeds_limit_false (max_str_digits : Z) (n : nat) :
  max_str_digits = 0 \/ (n <= 640)%nat ->
  Text.exceeds_limit max_str_digits n = false.
Proof.
  unfold Text.exceeds_limit. intros [-> | Hn].
  - rewrite Bool.andb_false_r. reflexivity.
  - destruct (Z.ltb_spec 640 (Z.of_nat n)); [lia | reflexivity].
Qed.

Lemma statefulset_ordinal_matched (max_str_digits : Z) (p d t : string) :
  no_line_feed p = true ->
  d <> EmptyString -> all_digits d = true ->
  t = EmptyString \/ t = line_feed ->
  Text.exceeds_limit max_str_digits (String.length d) = false ->
  Helpers.statefulset_ordinal max_str_digits (p ++ hyphen ++ d ++ t)
  = Ok (Text.digits_value 0 d).
Proof.
  intros Hp Hne Hd Ht Hlim. unfold Helpers.statefulset_ordinal.
  rewrite (ORD_RE_complete p d t Hp Hne Hd Ht).
  unfold Text.int_of_digits. rewrite Hlim. reflexivity.
Qed.

Lemma statefulset_ordinal_plain_name
    (max_str_digits : Z) (prefix : string) (n : Z) :
  no_line_feed prefix = true ->
  0 <= n ->
  Text.exceeds_limit max_str_digits (String.length (Text.str_of_nonneg n))
  = false ->
  Helpers.statefulset_ordinal max_str_digits (pod_name prefix n) = Ok n.
Proof.
  intros Hp Hn Hlim. unfold pod_name.
  pose proof (statefulset_ordinal_matched max_str_digits prefix
                (Text.str_of_nonneg n) EmptyString Hp
                (str_nonempty n) (str_digits n)) as H.
  rewrite string_app_nil_r in H. rewrite H by auto.
  rewrite digits_value_str by exact Hn. reflexivity.
Qed.

(** Round trip with the naming of a StatefulSet: for a prefix without line
    feed and an ordinal [n >= 0] whose decimal form is within the limit of the
    interpreter, the name [prefix-n] (with or without a final line feed)
    gives back [n], whatever hyphens and digits the prefix contains. *)
Theorem statefulset_ordinal_of_pod_name
    (max_str_digits : Z) (prefix : string) (n : Z) :
  no_line_feed prefix = true ->
  0 <= n ->
  Text.exceeds_limit max_str_digits (String.length (Text.str_of_nonneg n))
  = false ->
  Helpers.statefulset_ordinal max_str_digits (pod_name prefix n) = Ok n
  /\ Helpers.statefulset_ordinal max_str_digits
       (pod_name prefix n ++ line_feed) = Ok n.
Proof.
  intros Hp Hn Hlim. unfold pod_name.
  pose proof (statefulset_ordinal_matched max_str_digits prefix
                (Text.str_of_nonneg n)) as H.
  specialize (H EmptyString Hp (str_nonempty n) (str_digits n)) as H0.
  specialize (H line_feed Hp (str_nonempty n) (str_digits n)) as H1.
  rewrite string_app_nil_r in H0.
  rewrite !string_app_assoc.
  rewrite H0, H1 by auto. rewrite digits_value_str by exact Hn.
  split; reflexivity.
Qed.

Lemma statefulset_ordinal_of_pod_name_witness :
  no_line_feed "web-2-cache" = true
  /\ 0 <= 17
  /\ Text.exceeds_limit 4300 (String.length (Text.str_of_nonneg 17)) = false
  /\ (Helpers.statefulset_ordinal 4300 (pod_name "web-2-cache" 17) = Ok 17
      /\ Helpers.statefulset_ordinal 4300
           (pod_name "web-2-cache" 17 ++ line_feed) = Ok 17).
Proof.
  assert (H1 : no_line_feed "web-2-cache" = true) by reflexivity.
  assert (H2 : 0 <= 17) by lia.
  assert (H3 : Text.exceeds_limit 4300
                 (String.length (Text.str_of_nonneg 17)) = false)
    by reflexivity.
  split; [exact H1 |]. split; [exact H2 |]. split; [exact H3 |].
  exact (statefulset_ordinal_of_pod_name 4300 "web-2-cache" 17 H1 H2 H3).
Defined.

(** [statefulset_ordinal] either returns a non-negative number or raises
    the interpreter's digit-limit error, and the latter requires the limit
    to be on and a name of more than 640 characters. *)
Theorem statefulset_ordinal_nonnegative
    (max_str_digits : Z) (name : string) :
  (exists n, Helpers.statefulset_ordinal max_str_digits name = Ok n
             /\ 0 <= n)
  \/ (Helpers.statefulset_ordinal max_str_digits name
      = Raise Text.limit_error
      /\ max_str_digits <> 0 /\ (640 < String.length name)%nat).
Proof.
  unfold Helpers.statefulset_ordinal.
  destruct (Helpers.ORD_RE_match name) as [d |] eqn:Hm.
  - pose proof (ORD_RE_sound name d Hm) as (p & t & Hs & _ & _ & Hd & _).
    unfold Text.int_of_digits.
    destruct (Text.exceeds_limit max_str_digits (String.length d)) eqn:Hlim.
    + right. split; [reflexivity |].
      assert (Hlen : (String.length d <= String.length name)%nat).
      { rewrite Hs, !string_length_app. lia. }
      unfold Text.exceeds_limit in Hlim. lia.
    + left. eexists. split; [reflexivity |].
      apply digits_value_nonneg; [lia | exact Hd].
  - left. eexists. split; [reflexivity |].
    apply hash_loop_range. lia.
Qed.

(** A name that does not end in a hyphen and digits is hashed: in
    particular, on a name without any hyphen [statefulset_ordinal] returns
    the 32-bit rolling hash of the name (of ["unknown"] for the empty
    name), a value below [2 ^ 32]. *)
Theorem statefulset_ordinal_hashes_other_names
    (max_str_digits : Z) (name : string) :
  no_hyphen name = true ->
  Helpers.statefulset_ordinal max_str_digits name
  = Ok (Helpers.hash_loop (match name with
                           | EmptyString => "unknown"%string
                           | String _ _ => name
                           end) 0)
  /\ 0 <= Helpers.hash_loop (match name with
                             | EmptyString => "unknown"%string
                             | String _ _ => name
                             end) 0 < 2 ^ 32.
Proof.
  intros Hnh. unfold Helpers.statefulset_ordinal.
  rewrite (ORD_RE_no_hyphen name Hnh).
  split; [reflexivity | apply hash_loop_range; lia].
Qed.

Lemma statefulset_ordinal_hashes_other_names_witness :
  no_hyphen "scheduler" = true
  /\ (Helpers.statefulset_ordinal 4300 "scheduler"
      = Ok (Helpers.hash_loop "scheduler" 0)
      /\ 0 <= Helpers.hash_loop "scheduler" 0 < 2 ^ 32).
Proof.
  assert (H1 : no_hyphen "scheduler" = true) by reflexivity.
  split; [exact H1 |].
  exact (statefulset_ordinal_hashes_other_names 4300 "scheduler" H1).
Defined.

(** The pods [prefix-0 .. prefix-(n-1)] of a StatefulSet with [n <= M]
    replicas, each deriving its id from its own name, get pairwise distinct
    slots at every step. *)
Theorem pods_of_a_statefulset_get_distinct_slots
    (max_str_digits : Z) (prefix : string)
    (c : Core.BackoffConfig) (b : Core.CollatzBackoff) (k n i j : Z) :
  Core.init c = Ok b ->
  no_line_feed prefix = true ->
  1 <= n <= Core.slots_M c ->
  0 <= i < n -> 0 <= j < n -> i <> j ->
  Text.exceeds_limit max_str_digits (String.length (Text.str_of_nonneg i))
  = false ->
  Text.exceeds_limit max_str_digits (String.length (Text.str_of_nonneg j))
  = false ->
  (id_i <- Helpers.statefulset_ordinal max_str_digits (pod_name prefix i) ;;
   Core.offset_slot b id_i k)
  <> (id_j <- Helpers.statefulset_ordinal max_str_digits (pod_name prefix j) ;;
      Core.offset_slot b id_j k)
  /\ exists s,
      (id_i <- Helpers.statefulset_ordinal max_str_digits (pod_name prefix i) ;;
       Core.offset_slot b id_i k) = Ok s.
Proof.
  intros Hinit Hp Hn Hi Hj Hij Hli Hlj.
  pose proof (statefulset_ordinal_plain_name max_str_digits prefix i Hp
                ltac:(lia) Hli) as Hoi.
  pose proof (statefulset_ordinal_plain_name max_str_digits prefix j Hp
                ltac:(lia) Hlj) as Hoj.
  rewrite Hoi, Hoj. cbn [bind].
  engine_bounds Hinit Hc HM.
  rewrite !offset_slot_eq by (rewrite Hc; lia). rewrite Hc.
  split; [| eauto].
  intros Heq. injection Heq as Heq. apply Hij.
  eapply affine_mod_injective; [| apply multiplier_coprime | | | exact Heq];
    lia.
Qed.

Lemma pods_of_a_statefulset_get_distinct_slots_witness :
  Core.init default_config = Ok default_engine
  /\ no_line_feed "app" = true
  /\ 1 <= 3 <= Core.slots_M default_config
  /\ 0 <= 0 < 3 /\ 0 <= 2 < 3 /\ 0 <> 2
  /\ Text.exceeds_limit 4300 (String.length (Text.str_of_nonneg 0)) = false
  /\ Text.exceeds_limit 4300 (String.length (Text.str_of_nonneg 2)) = false
  /\ ((id_i <- Helpers.statefulset_ordinal 4300 (pod_name "app" 0) ;;
       Core.offset_slot default_engine id_i 1)
      <> (id_j <- Helpers.statefulset_ordinal 4300 (pod_name "app" 2) ;;
          Core.offset_slot default_engine id_j 1)
      /\ exists s,
          (id_i <- Helpers.statefulset_ordinal 4300 (pod_name "app" 0) ;;
           Core.offset_slot default_engine id_i 1) = Ok s).
Proof.
  assert (H1 : Core.init default_config = Ok default_engine) by reflexivity.
  assert (H2 : no_line_feed "app" = true) by reflexivity.
  assert (H3 : 1 <= 3 <= Core.slots_M default_config) by (simpl; lia).
  assert (H4 : 0 <= 0 < 3) by lia.
  assert (H5 : 0 <= 2 < 3) by lia.
  assert (H6 : 0 <> 2) by lia.
  assert (H7 : Text.exceeds_limit 4300
                 (String.length (Text.str_of_nonneg 0)) = false)
    by reflexivity.
  assert (H8 : Text.exceeds_limit 4300
                 (String.length (Text.str_of_nonneg 2)) = false)
    by reflexivity.
  split; [exact H1 |]. split; [exact H2 |]. split; [exact H3 |].
  split; [exact H4 |]. split; [exact H5 |]. split; [exact H6 |].
  split; [exact H7 |]. split; [exact H8 |].
  exact (pods_of_a_statefulset_get_distinct_slots 4300 "app"
           default_config default_engine 1 3 0 2 H1 H2 H3 H4 H5 H6 H7 H8).
Defined.

(** ** Integers from the environment *)

Lemma lstrip_app_space (l x : string) :
  all_space l = true -> Text.lstrip (l ++ x) = Text.lstrip x.
Proof.
  induction l as [| c l IH]; [reflexivity |].
  cbn [all_space string_forall]. rewrite Bool.andb_true_iff.
  intros [Hc Hl]. cbn [append Text.lstrip]. rewrite Hc. exact (IH Hl).
Qed.

Lemma lstrip_all_space (l : string) :
  all_space l = true -> Text.lstrip l = EmptyString.
Proof.
  intros H. rewrite <- (string_app_nil_r l).
  rewrite lstrip_app_space by exact H. reflexivity.
Qed.

Lemma lstrip_no_space (x : string) :
  no_space x = true -> Text.lstrip x = x.
Proof.
  destruct x as [| c x]; [reflexivity |].
  cbn [no_space string_forall]. rewrite Bool.andb_true_iff.
  intros [Hc _]. apply Bool.negb_true_iff in Hc.
  cbn [Text.lstrip]. rewrite Hc. reflexivity.
Qed.

Lemma rstrip_all_space (r : string) :
  all_space r = true -> Text.rstrip r = EmptyString.
Proof.
  induction r as [| c r IH]; [reflexivity |].
  cbn [all_space string_forall]. rewrite Bool.andb_true_iff.
  intros [Hc Hr]. cbn [Text.rstrip]. rewrite (IH Hr), Hc. reflexivity.
Qed.

Lemma rstrip_app_space (x r : string) :
  all_space r = true -> Text.rstrip (x ++ r) = Text.rstrip x.
Proof.
  intros Hr. induction x as [| c x IH].
  - cbn [append]. rewrite rstrip_all_space by exact Hr. reflexivity.
  - cbn [append Text.rstrip]. rewrite IH. reflexivity.
Qed.

Lemma rstrip_no_space (x : string) :
  no_space x = true -> Text.rstrip x = x.
Proof.
  induction x as [| c x IH]; [reflexivity |].
  cbn [no_space string_forall]. rewrite Bool.andb_true_iff.
  intros [Hc Hx]. apply Bool.negb_true_iff in Hc.
  cbn [Text.rstrip]. rewrite (IH Hx), Hc.
  destruct x; reflexivity.
Qed.

Lemma strip_padded (l x r : string) :
  all_space l = true -> all_space r = true -> no_space x = true ->
  Text.strip (l ++ x ++ r) = x.
Proof.
  intros Hl Hr Hx. unfold Text.strip.
  rewrite lstrip_app_space by exact Hl.
  destruct x as [| c x].
  - cbn [append]. rewrite lstrip_all_space by exact Hr. reflexivity.
  - pose proof Hx as Hx'. cbn [no_space string_forall] in Hx'.
    apply Bool.andb_true_iff in Hx'. destruct Hx' as [Hc _].
    apply Bool.negb_true_iff in Hc.
    assert (Hxr : Text.lstrip (String c x ++ r) = (String c x ++ r)%string).
    { cbn [append Text.lstrip]. rewrite Hc. reflexivity. }
    rewrite Hxr, rstrip_app_space by exact Hr.
    apply rstrip_no_space; exact Hx.
Qed.

Lemma literal_digits_of_digits (d : string) :
  all_digits d = true -> Text.literal_digits true d = Some d.
Proof.
  induction d as [| c d IH]; [reflexivity |].
  cbn [all_digits string_forall]. rewrite Bool.andb_true_iff.
  intros [Hc Hd]. cbn [Text.literal_digits]. rewrite Hc, (IH Hd).
  reflexivity.
Qed.

Lemma literal_digits_start (d : string) :
  d <> EmptyString -> all_digits d = true ->
  Text.literal_digits false d = Some d.
Proof.
  destruct d as [| c d]; [contradiction |]. intros _.
  cbn [all_digits string_forall]. rewrite Bool.andb_true_iff.
  intros [Hc Hd]. cbn [Text.literal_digits].
  rewrite Hc, (literal_digits_of_digits d Hd). reflexivity.
Qed.

Lemma int_of_text_digits (max_str_digits : Z) (d : string) :
  d <> EmptyString -> all_digits d = true ->
  Text.exceeds_limit max_str_digits (String.length d) = false ->
  Text.int_of_text max_str_digits d = Ok (Text.digits_value 0 d)
  /\ Text.int_of_text max_str_digits (hyphen ++ d)
     = Ok (- Text.digits_value 0 d).
Proof.
  intros Hne Hd Hlim. unfold Text.int_of_text. split.
  - destruct d as [| c d'] eqn:E; [contradiction |]. rewrite <- E in *.
    assert (Hc : Text.isdecimal c = true).
    { rewrite E in Hd. cbn [all_digits string_forall] in Hd.
      apply Bool.andb_true_iff in Hd. exact (proj1 Hd). }
    apply isdigit_ord in Hc.
    destruct (Z.eqb_spec (Text.ord c) 45); [lia |].
    destruct (Z.eqb_spec (Text.ord c) 43); [lia |].
    rewrite (literal_digits_start d Hne Hd).
    unfold Text.int_of_digits. rewrite Hlim. reflexivity.
  - unfold hyphen. cbn [append].
    change (Text.ord "-" =? 45) with true. cbv iota.
    rewrite (literal_digits_start d Hne Hd).
    unfold Text.int_of_digits. rewrite Hlim. reflexivity.
Qed.

Lemma int_of_text_raises_ValueError (max_str_digits : Z) (v : string) (e : exn) :
  Text.int_of_text max_str_digits v = Raise e -> exists msg, e = ValueError msg.
Proof.
  unfold Text.int_of_text.
  destruct (match v with
            | String c r =>
                if Text.ord c =? 45 then (true, r)
                else if Text.ord c =? 43 then (false, r) else (false, v)
            | EmptyString => (false, v)
            end) as [negative body].
  destruct (Text.literal_digits false body) as [d |].
  - unfold Text.int_of_digits.
    destruct (Text.exceeds_limit _ _); cbn [bind]; intros H;
      [injection H as <-; eexists; reflexivity | discriminate].
  - intros H. injection H as <-. eexists; reflexivity.
Qed.

Lemma no_space_digits (d : string) :
  all_digits d = true -> no_space d = true.
Proof.
  apply string_forall_impl. intros c Hc.
  rewrite (isdigit_not_space c Hc). reflexivity.
Qed.

(** [env_int] never raises: it returns the default when the variable is
    unset or blank, and whenever its text is not an integer literal (the
    [ValueError] of [int], also the digit-limit one, is caught). *)
Theorem env_int_never_raises
    (max_str_digits : Z) (environ : string -> option string)
    (key : string) (default : Z) :
  (exists n, Helpers.env_int max_str_digits environ key default = Ok n)
  /\ (environ key = None ->
      Helpers.env_int max_str_digits environ key default = Ok default)
  /\ (forall v, environ key = Some v -> all_space v = true ->
        Helpers.env_int max_str_digits environ key default = Ok default)
  /\ (forall v e, environ key = Some v ->
        Text.int_of_text max_str_digits (Text.strip v) = Raise e ->
        Helpers.env_int max_str_digits environ key default = Ok default).
Proof.
  assert (Hgen : forall v,
             (exists n,
                 match v with
                 | EmptyString => Ok default
                 | String _ _ =>
                     match Text.int_of_text max_str_digits v with
                     | Ok n => Ok n
                     | Raise (ValueError _) => Ok default
                     | Raise e => Raise e
                     end
                 end = Ok n)
             /\ (forall e, Text.int_of_text max_str_digits v = Raise e ->
                   match v with
                   | EmptyString => Ok default
                   | String _ _ =>
                       match Text.int_of_text max_str_digits v with
                       | Ok n => Ok n
                       | Raise (ValueError _) => Ok default
                       | Raise e => Raise e
                       end
                   end = Ok default)).
  { intros v. destruct v as [| c v]; [split; eauto |].
    destruct (Text.int_of_text max_str_digits (String c v)) as [n | e] eqn:E.
    - split; [eauto | intros e H; discriminate].
    - destruct (int_of_text_raises_ValueError _ _ _ E) as [msg ->].
      split; eauto. }
  unfold Helpers.env_int.
  split; [apply Hgen |].
  split; [intros ->; reflexivity |].
  split.
  - intros v -> Hv. unfold Text.strip.
    rewrite lstrip_all_space by exact Hv. reflexivity.
  - intros v e -> He. apply (proj2 (Hgen (Text.strip v)) e He).
Qed.

(** Round trip: when the variable holds the decimal form of [n >= 0]
    (within the digit limit), with or without a minus sign in front and
    possibly padded with whitespace on both sides, [env_int] returns [n],
    respectively [- n]; the default is not used. *)
Theorem env_int_reads_decimal
    (max_str_digits : Z) (environ : string -> option string)
    (key l r : string) (negative : bool) (default n : Z) :
  all_space l = true -> all_space r = true ->
  0 <= n ->
  Text.exceeds_limit max_str_digits (String.length (Text.str_of_nonneg n))
  = false ->
  environ key
  = Some (l ++ ((if negative then hyphen else EmptyString)
                ++ Text.str_of_nonneg n) ++ r)%string ->
  Helpers.env_int max_str_digits environ key default
  = Ok (if negative then - n else n).
Proof.
  intros Hl Hr Hn Hlim Henv.
  pose proof (str_nonempty n) as Hne. pose proof (str_digits n) as Hd.
  pose proof (int_of_text_digits max_str_digits _ Hne Hd Hlim) as [Hpos Hneg].
  rewrite digits_value_str in Hpos, Hneg by exact Hn.
  unfold Helpers.env_int. rewrite Henv. destruct negative.
  - rewrite strip_padded; [| exact Hl | exact Hr |].
    + rewrite Hneg. reflexivity.
    + unfold hyphen. cbn [append no_space string_forall].
      apply Bool.andb_true_iff. split; [reflexivity |].
      apply no_space_digits; exact Hd.
  - cbn [append]. rewrite strip_padded by (auto using no_space_digits).
    rewrite Hpos. destruct (Text.str_of_nonneg n); [contradiction | reflexivity].
Qed.

Lemma env_int_reads_decimal_witness :
  all_space " " = true /\ all_space line_feed = true
  /\ 0 <= 2048
  /\ Text.exceeds_limit 4300 (String.length (Text.str_of_nonneg 2048)) = false
  /\ (fun _ : string =>
        Some (" " ++ ((if false then hyphen else EmptyString)
                      ++ Text.str_of_nonneg 2048) ++ line_feed)%string)
       "BACKOFF_SLOTS_M"%string
     = Some (" " ++ ((if false then hyphen else EmptyString)
                     ++ Text.str_of_nonneg 2048) ++ line_feed)%string
  /\ Helpers.env_int 4300
       (fun _ : string =>
          Some (" " ++ ((if false then hyphen else EmptyString)
                        ++ Text.str_of_nonneg 2048) ++ line_feed)%string)
       "BACKOFF_SLOTS_M" 1024
     = Ok (if false then - 2048 else 2048).
Proof.
  assert (H1 : all_space " " = true) by reflexivity.
  assert (H2 : all_space line_feed = true) by reflexivity.
  assert (H3 : 0 <= 2048) by lia.
  assert (H4 : Text.exceeds_limit 4300
                 (String.length (Text.str_of_nonneg 2048)) = false)
    by reflexivity.
  split; [exact H1 |]. split; [exact H2 |]. split; [exact H3 |].
  split; [exact H4 |]. split; [reflexivity |].
  exact (env_int_reads_decimal 4300
           (fun _ : string =>
              Some (" " ++ ((if false then hyphen else EmptyString)
                            ++ Text.str_of_nonneg 2048) ++ line_feed)%string)
           "BACKOFF_SLOTS_M" " " line_feed false 1024 2048
           H1 H2 H3 H4 eq_refl).
Defined.

(** ** The script's seconds and the cap *)

Lemma flt_asym (x y : Py.float) :
  Py.flt x y = true -> Py.flt y x = false.
Proof.
  unfold Py.flt, SFltb, SFcompare.
  destruct x as [sx | sx | | sx mx ex], y as [sy | sy | | sy my ey];
    try destruct sx; try destruct sy; try discriminate; try reflexivity.
  all: assert (Hp : Pos.compare_cont Eq my mx
                    = CompOpp (Pos.compare_cont Eq mx my))
         by (rewrite Pos.compare_cont_antisym; reflexivity).
  all: rewrite (Z.compare_antisym ex ey), Hp.
  all: destruct (ex ?= ey); cbn [CompOpp]; try discriminate; try reflexivity.
  all: destruct (Pos.compare_cont Eq mx my); cbn [CompOpp];
         try discriminate; reflexivity.
Qed.

(** Whatever the script's [collatz_seeded_backoff_seconds] returns is
    never above [cap_seconds]: it is either the cap itself or a wait
    strictly below it. *)
Theorem script_seconds_never_above_cap
    (node_id k : Z) (cfg : Script.BackoffConfig) (r : Py.float) :
  Script.collatz_seeded_backoff_seconds node_id k cfg = Ok r ->
  Py.flt (Script.cap_seconds cfg) r = false
  /\ (r = Script.cap_seconds cfg \/ Py.flt r (Script.cap_seconds cfg) = true).
Proof.
  unfold Script.collatz_seeded_backoff_seconds. intros H.
  apply bind_Ok_inv in H. destruct H as (offset & _ & H).
  apply bind_Ok_inv in H. destruct H as (jitter & _ & H).
  apply bind_Ok_inv in H. destruct H as (p & _ & H).
  apply bind_Ok_inv in H. destruct H as (x & _ & H).
  injection H as <-. unfold Py.fmin.
  destruct (Py.flt (Py.fadd x jitter) (Script.cap_seconds cfg)) eqn:Hlt.
  - split; [apply flt_asym; exact Hlt | right; exact Hlt].
  - split; [| left; reflexivity].
    destruct (Py.flt (Script.cap_seconds cfg) (Script.cap_seconds cfg)) eqn:E;
      [| reflexivity].
    pose proof (flt_asym _ _ E) as E'. congruence.
Qed.

Lemma script_seconds_never_above_cap_witness :
  Script.collatz_seeded_backoff_seconds 4 9 (Script.of_core default_config)
  = Ok f10
  /\ (Py.flt (Script.cap_seconds (Script.of_core default_config)) f10 = false
      /\ (f10 = Script.cap_seconds (Script.of_core default_config)
          \/ Py.flt f10 (Script.cap_seconds (Script.of_core default_config))
             = true)).
Proof.
  assert (H1 : Script.collatz_seeded_backoff_seconds 4 9
                 (Script.of_core default_config) = Ok f10)
    by (vm_compute; reflexivity).
  split; [exact H1 |].
  exact (script_seconds_never_above_cap 4 9
           (Script.of_core default_config) f10 H1).
Defined.

(** ** Seconds against the exact quotient *)

Lemma digits2_pos_bounds (p : positive) :
  2 ^ (Zpos (digits2_pos p) - 1) <= Zpos p < 2 ^ Zpos (digits2_pos p).
Proof.
  induction p as [p IH | p IH |].
  - cbn [digits2_pos]. rewrite Pos2Z.inj_succ.
    replace (Z.succ (Zpos (digits2_pos p)) - 1) with (Z.succ (Zpos (digits2_pos p) - 1)) by lia.
    rewrite !Z.pow_succ_r by lia. lia.
  - cbn [digits2_pos]. rewrite Pos2Z.inj_succ.
    replace (Z.succ (Zpos (digits2_pos p)) - 1) with (Z.succ (Zpos (digits2_pos p) - 1)) by lia.
    rewrite !Z.pow_succ_r by lia. lia.
  - cbn. lia.
Qed.

Lemma digits2_pos_le_53 (p : positive) :
  Zpos p < 2 ^ 53 -> Zpos (digits2_pos p) <= 53.
Proof.
  intros Hp. pose proof (digits2_pos_bounds p) as [Hlo _].
  destruct (Z_le_gt_dec (Zpos (digits2_pos p)) 53) as [H | H]; [exact H |].
  assert (2 ^ 53 <= 2 ^ (Zpos (digits2_pos p) - 1)) by (apply Z.pow_le_mono_r; lia).
  lia.
Qed.

Lemma digits2_pos_iter_xO (p n : positive) :
  digits2_pos (Pos.iter xO p n) = (digits2_pos p + n)%positive.
Proof.
  induction n as [| n IH] using Pos.peano_ind.
  - cbn. rewrite Pos.add_1_r. reflexivity.
  - rewrite Pos.iter_succ. cbn [digits2_pos]. rewrite IH, Pos.add_succ_r. reflexivity.
Qed.

Lemma Zpos_iter_xO (p n : positive) :
  Zpos (Pos.iter xO p n) = Zpos p * 2 ^ Zpos n.
Proof.
  induction n as [| n IH] using Pos.peano_ind.
  - cbn. lia.
  - rewrite Pos.iter_succ, Pos2Z.inj_xO, IH, Pos2Z.inj_succ, Z.pow_succ_r by lia. lia.
Qed.

Lemma binary_round_aux_exact (mz : positive) (ez : Z) :
  Zpos (digits2_pos mz) = 53 -> -1074 <= ez <= 971 ->
  binary_round_aux 53 1024 false (Zpos mz) ez loc_Exact = S754_finite false mz ez.
Proof.
  intros Hd He.
  assert (Hshr : shr_fexp 53 1024 (Zpos mz) ez loc_Exact
                 = ({| shr_m := Zpos mz; shr_r := false; shr_s := false |}, ez)).
  { unfold shr_fexp. cbn [Zdigits2 shr_record_of_loc]. rewrite Hd.
    replace (fexp 53 1024 (53 + ez) - ez) with 0 by (unfold fexp, emin; lia).
    reflexivity. }
  unfold binary_round_aux. rewrite Hshr.
  cbn [shr_m loc_of_shr_record round_nearest_even]. rewrite Hshr. cbn [shr_m].
  destruct (Z.leb_spec ez (1024 - 53)); [reflexivity | lia].
Qed.

Lemma float_of_int_exact (p : positive) :
  Zpos p < 2 ^ 53 ->
  exists mz ez,
    binary_normalize 53 1024 (Zpos p) 0 false = S754_finite false mz ez
    /\ Zpos (digits2_pos mz) = 53
    /\ Zpos mz = Zpos p * 2 ^ (53 - Zpos (digits2_pos p))
    /\ ez = Zpos (digits2_pos p) - 53.
Proof.
  intros Hp. pose proof (digits2_pos_le_53 p Hp) as HD.
  cbn [binary_normalize]. unfold binary_round.
  replace (fexp 53 1024 (Zpos (digits2_pos p) + 0)) with (Zpos (digits2_pos p) - 53)
    by (unfold fexp, emin; lia).
  unfold shl_align.
  destruct (Zpos (digits2_pos p) - 53 - 0) as [| d | d] eqn:E; [| lia |].
  - exists p, 0. split; [apply binary_round_aux_exact; lia |].
    split; [lia |]. split; [| lia].
    replace (53 - Zpos (digits2_pos p)) with 0 by lia. lia.
  - exists (Pos.iter xO p d), (Zpos (digits2_pos p) - 53).
    assert (Hdig : Zpos (digits2_pos (Pos.iter xO p d)) = 53).
    { rewrite digits2_pos_iter_xO. lia. }
    split; [apply binary_round_aux_exact; [exact Hdig | lia] |].
    split; [exact Hdig |]. split; [| reflexivity].
    rewrite Zpos_iter_xO. f_equal. f_equal. lia.
Qed.

Lemma div_eucl_pair (a b : Z) : Z.div_eucl a b = (a / b, a mod b).
Proof. unfold Z.div, Z.modulo. destruct (Z.div_eucl a b); reflexivity. Qed.

Lemma new_location_scaled (r : Z) :
  new_location 8589934592000000 (r * 8589934592) = new_location 1000000 r.
Proof.
  unfold new_location.
  change (Z.even 8589934592000000) with true.
  change (Z.even 1000000) with true. cbv iota.
  unfold new_location_even.
  destruct (Z.eqb_spec (r * 8589934592) 0), (Z.eqb_spec r 0);
    try reflexivity; try lia.
  f_equal.
  destruct (Z.compare_spec (2 * (r * 8589934592)) 8589934592000000),
           (Z.compare_spec (2 * r) 1000000); try reflexivity; lia.
Qed.

Lemma div_core_scaled (p mz : positive) :
  Zpos p < 2 ^ 53 ->
  Zpos (digits2_pos mz) = 53 ->
  Zpos mz = Zpos p * 2 ^ (53 - Zpos (digits2_pos p)) ->
  SFdiv_core_binary 53 1024 (Zpos mz) (Zpos (digits2_pos p) - 53)
    (Zpos 8589934592000000) (-33)
  = SFdiv_core_binary 53 1024 (Zpos p) 0 (Zpos 1000000) 0.
Proof.
  intros Hp Hd Hmz. pose proof (digits2_pos_le_53 p Hp) as HD.
  set (D := Zpos (digits2_pos p)) in *.
  unfold SFdiv_core_binary. cbn [Zdigits2]. rewrite Hd. fold D.
  change (Zpos (digits2_pos 8589934592000000)) with 53.
  change (Zpos (digits2_pos 1000000)) with 20.
  cbv zeta.
  replace (Z.min (fexp 53 1024 (53 + (D - 53) - (53 + -33))) (D - 53 - -33))
    with (D - 73) by (unfold fexp, emin; lia).
  replace (Z.min (fexp 53 1024 (D + 0 - (20 + 0))) (0 - 0))
    with (D - 73) by (unfold fexp, emin; lia).
  replace (D - 53 - -33 - (D - 73)) with 53 by lia.
  destruct (0 - 0 - (D - 73)) as [| s | s] eqn:Es; [lia | | lia].
  rewrite !div_eucl_pair, !Z.shiftl_mul_pow2 by lia.
  assert (Hscale : Zpos mz * 2 ^ 53 = (Zpos p * 2 ^ Zpos s) * 8589934592).
  { rewrite Hmz. replace (Zpos s) with (73 - D) by lia.
    change 8589934592 with (2 ^ 33).
    rewrite <- !Z.mul_assoc, <- !Z.pow_add_r by lia.
    f_equal. f_equal. lia. }
  rewrite Hscale.
  change 8589934592000000 with (1000000 * 8589934592).
  rewrite Z.div_mul_cancel_r, Z.mul_mod_distr_r by lia.
  change (1000000 * 8589934592) with 8589934592000000.
  rewrite new_location_scaled. reflexivity.
Qed.

Lemma shr_1_bound (mrs : shr_record) :
  0 <= shr_m mrs -> 0 <= shr_m (shr_1 mrs) <= shr_m mrs.
Proof.
  destruct mrs as [m r s]. cbn [shr_m]. intros Hm.
  destruct m as [| [p | p |] | p]; cbn [shr_1 shr_m]; lia.
Qed.

Lemma iter_shr_1_bound (n : positive) (mrs : shr_record) :
  0 <= shr_m mrs -> 0 <= shr_m (iter_pos shr_1 n mrs) <= shr_m mrs.
Proof.
  revert mrs. induction n as [n IH | n IH |]; intros mrs Hm; cbn [iter_pos].
  - pose proof (shr_1_bound mrs Hm) as H1.
    pose proof (IH _ (proj1 H1)) as H2.
    pose proof (IH _ (proj1 H2)) as H3. lia.
  - pose proof (IH mrs Hm) as H2.
    pose proof (IH _ (proj1 H2)) as H3. lia.
  - apply shr_1_bound; exact Hm.
Qed.

Lemma Zdigits2_le (m k : Z) : 0 <= m < 2 ^ k -> 0 <= k -> Zdigits2 m <= k.
Proof.
  intros Hm Hk. destruct m as [| p | p]; cbn [Zdigits2]; [lia | | lia].
  pose proof (digits2_pos_bounds p) as [Hlo _].
  destruct (Z_le_gt_dec (Zpos (digits2_pos p)) k) as [H | H]; [exact H |].
  assert (2 ^ k <= 2 ^ (Zpos (digits2_pos p) - 1))
    by (apply Z.pow_le_mono_r; lia).
  lia.
Qed.

Lemma shr_fexp_bound (m e k : Z) (l : location) :
  0 <= m < 2 ^ k -> 0 <= k ->
  0 <= shr_m (fst (shr_fexp 53 1024 m e l)) <= m
  /\ snd (shr_fexp 53 1024 m e l) <= Z.max e (Z.max (k + e - 53) (-1074)).
Proof.
  intros Hm Hk. unfold shr_fexp, shr.
  pose proof (Zdigits2_le m k Hm Hk) as Hd.
  assert (Hrec : shr_m (shr_record_of_loc m l) = m)
    by (destruct l as [| []]; reflexivity).
  assert (Hf : fexp 53 1024 (Zdigits2 m + e)
               <= Z.max (k + e - 53) (-1074)) by (unfold fexp, emin; lia).
  destruct (fexp 53 1024 (Zdigits2 m + e) - e) as [| n | n] eqn:En;
    cbn [fst snd]; rewrite ?Hrec; try lia.
  pose proof (iter_shr_1_bound n (shr_record_of_loc m l)) as Hb.
  rewrite Hrec in Hb. specialize (Hb ltac:(lia)). lia.
Qed.

Lemma binary_round_aux_not_infinite (q e : Z) (l : location) (s : bool) :
  0 <= q < 2 ^ 73 -> e <= 0 ->
  binary_round_aux 53 1024 false q e l <> S754_infinity s.
Proof.
  intros Hq He. unfold binary_round_aux.
  pose proof (shr_fexp_bound q e 73 l Hq ltac:(lia)) as [Hm1 He1].
  destruct (shr_fexp 53 1024 q e l) as [mrs' e'] eqn:E1. cbn [fst snd] in *.
  set (m2 := round_nearest_even (shr_m mrs') (loc_of_shr_record mrs')).
  assert (Hm2 : 0 <= m2 < 2 ^ 74).
  { unfold m2, round_nearest_even. change (2 ^ 74) with (2 * 2 ^ 73).
    destruct (loc_of_shr_record mrs') as [| []]; try lia.
    destruct (Z.even (shr_m mrs')); lia. }
  pose proof (shr_fexp_bound m2 e' 74 loc_Exact Hm2 ltac:(lia)) as [_ He2].
  destruct (shr_fexp 53 1024 m2 e' loc_Exact) as [mrs'' e''] eqn:E2.
  cbn [fst snd] in *.
  destruct (shr_m mrs''); try discriminate.
  destruct (Z.leb_spec e'' (1024 - 53)); [discriminate | lia].
Qed.

(** For an integer below [2 ^ 53] the conversion to a double is exact, so
    dividing the double by [1_000_000.0] is the correctly rounded
    quotient. *)
Lemma int_div_float_exact (us : Z) :
  0 <= us < 2 ^ 53 ->
  Py.int_div_float us Py.f1000000 = int_truediv us 1000000
  /\ exists r, Py.int_div_float us Py.f1000000 = Ok r.
Proof.
  intros Hus.
  destruct us as [| p | p];
    [split; [reflexivity | eexists; reflexivity] | | lia].
  destruct (float_of_int_exact p (proj2 Hus))
    as (mz & ez & Hn & Hd & Hmz & Hez).
  unfold Py.int_div_float, Py.float_of_int, Py.prec, Py.emax.
  rewrite Hn. cbn [bind]. unfold Py.f1000000 at 1 3.
  split; [| eexists; reflexivity].
  unfold int_truediv. change (1000000 =? 0) with false. cbv iota.
  cbn [int_as_float]. unfold Py.fdiv, Py.f1000000, Py.prec, Py.emax, SFdiv.
  subst ez. rewrite (div_core_scaled p mz (proj2 Hus) Hd Hmz).
  pose proof (digits2_pos_le_53 p (proj2 Hus)) as HD.
  pose proof (digits2_pos_bounds p) as [_ Hhi].
  unfold SFdiv_core_binary. cbn [Zdigits2].
  change (Zpos (digits2_pos 1000000)) with 20. cbv zeta.
  set (D := Zpos (digits2_pos p)) in *.
  replace (Z.min (fexp 53 1024 (D + 0 - (20 + 0))) (0 - 0))
    with (D - 73) by (unfold fexp, emin; lia).
  destruct (0 - 0 - (D - 73)) as [| s | s] eqn:Es; [lia | | lia].
  rewrite div_eucl_pair, Z.shiftl_mul_pow2 by lia.
  cbn [xorb].
  assert (Hq : 0 <= Zpos p * 2 ^ Zpos s / 1000000 < 2 ^ 73).
  { assert (Ha : 0 <= Zpos p * 2 ^ Zpos s < 2 ^ 73).
    { replace 73 with (D + Zpos s) by lia. rewrite Z.pow_add_r by lia.
      pose proof (Z.pow_pos_nonneg 2 (Zpos s) ltac:(lia) ltac:(lia)). nia. }
    split; [apply Z.div_pos; lia |].
    apply Z.le_lt_trans with (Zpos p * 2 ^ Zpos s); [| lia].
    apply Z.div_le_upper_bound; lia. }
  pose proof (binary_round_aux_not_infinite _ (D - 73)
                (new_location 1000000 (Zpos p * 2 ^ Zpos s mod 1000000))
                true Hq ltac:(lia)) as Hni1.
  pose proof (binary_round_aux_not_infinite _ (D - 73)
                (new_location 1000000 (Zpos p * 2 ^ Zpos s mod 1000000))
                false Hq ltac:(lia)) as Hni2.
  destruct (binary_round_aux 53 1024 false _ _ _) as [s0 | [|] | | s0 m0 e0];
    try reflexivity; contradiction.
Qed.

Lemma wait_micros_nonneg
    (c : Core.BackoffConfig) (b : Core.CollatzBackoff) (node_id k us : Z) :
  Core.init c = Ok b ->
  Core.wait_micros b node_id k = Ok us -> 0 <= us.
Proof.
  intros Hinit H.
  pose proof (init_Ok_inv c b Hinit) as (Hc & Hbs & Hms & HM & Hcs).
  assert (HM0 : Core.slots_M (Core.cfg b) <> 0) by (rewrite Hc; lia).
  unfold Core.wait_micros, Core.jitter_us in H.
  rewrite offset_slot_eq in H by exact HM0.
  apply bind_Ok_inv in H. destruct H as (B & HB & H). cbn [bind] in H.
  apply bind_Ok_inv in H. destruct H as (C & HC & H).
  injection H as <-.
  assert (0 <= B).
  { eapply base_us_nonneg; [| exact HB].
    rewrite Hc. apply validated_not_negative; exact Hbs. }
  assert (0 <= C).
  { eapply cap_us_nonneg; [| exact HC].
    rewrite Hc. apply validated_not_negative; exact Hcs. }
  rewrite Hc in *.
  match goal with
  | |- context [?x mod Core.slots_M c] =>
      pose proof (Z.mod_pos_bound x (Core.slots_M c) ltac:(lia)) as Hr;
      set (s := x mod Core.slots_M c) in *
  end.
  assert (0 <= s * Core.slot_ms c * 1000) by nia.
  lia.
Qed.

(** Counterexample to C8 as stated: on a valid configuration whose wait
    exceeds [2 ^ 53] microseconds, the conversion of the wait to a double
    rounds before the division does, and [wait_seconds] is one unit in the
    last place below [wait_micros / 1_000_000]. *)
Lemma wait_seconds_double_rounding :
  Core.init wide_slot_config = Ok wide_slot_engine
  /\ 0 <= 1 /\ 0 <= 0
  /\ Core.wait_micros wide_slot_engine 1 0 = Ok 288230376151762000
  /\ Core.wait_seconds wide_slot_engine 1 0
     = Ok (S754_finite false 4722366482870468 (-14))
  /\ int_truediv 288230376151762000 1000000
     = Ok (S754_finite false 4722366482870469 (-14))
  /\ Py.feq (S754_finite false 4722366482870468 (-14))
            (S754_finite false 4722366482870469 (-14)) = false
  /\ Core.wait_seconds wide_slot_engine 1 0
     <> int_truediv 288230376151762000 1000000.
Proof.
  assert (H1 : Core.wait_seconds wide_slot_engine 1 0
               = Ok (S754_finite false 4722366482870468 (-14)))
    by (vm_compute; reflexivity).
  assert (H2 : int_truediv 288230376151762000 1000000
               = Ok (S754_finite false 4722366482870469 (-14)))
    by (vm_compute; reflexivity).
  split; [reflexivity |]. split; [lia |]. split; [lia |].
  split; [vm_compute; reflexivity |].
  split; [exact H1 |]. split; [exact H2 |]. split; [reflexivity |].
  rewrite H1, H2. intros H. discriminate H.
Qed.

(** C8 (as amended): [wait_seconds] raises what [wait_micros] raises;
    on a result [us] of [wait_micros] it is the double of [us] divided
    once by [1_000_000.0], and whenever [us < 2 ^ 53] that is exactly
    [us / 1_000_000], the correctly rounded quotient, and [wait_seconds]
    returns it.  With the default base delay and cap this is the case at
    every step from 0 to 1008. *)
Theorem wait_seconds_exact_below_2_53
    (c : Core.BackoffConfig) (b : Core.CollatzBackoff) (node_id k : Z) :
  Core.init c = Ok b ->
  0 <= node_id ->
  0 <= k ->
  (forall e, Core.wait_micros b node_id k = Raise e ->
             Core.wait_seconds b node_id k = Raise e)
  /\ (forall us, Core.wait_micros b node_id k = Ok us ->
        0 <= us
        /\ Core.wait_seconds b node_id k = Py.int_div_float us Py.f1000000
        /\ (us < 2 ^ 53 ->
            Core.wait_seconds b node_id k = int_truediv us 1000000
            /\ exists r, Core.wait_seconds b node_id k = Ok r))
  /\ (Core.base_seconds c = f0_05 -> Core.cap_seconds c = f10 ->
      k <= 1008 ->
      exists us r,
        Core.wait_micros b node_id k = Ok us
        /\ us < 2 ^ 53
        /\ Core.wait_seconds b node_id k = Ok r
        /\ int_truediv us 1000000 = Ok r).
Proof.
  intros Hinit _ Hk.
  assert (Hexact : forall us, Core.wait_micros b node_id k = Ok us ->
             0 <= us
             /\ Core.wait_seconds b node_id k
                = Py.int_div_float us Py.f1000000
             /\ (us < 2 ^ 53 ->
                 Core.wait_seconds b node_id k = int_truediv us 1000000
                 /\ exists r, Core.wait_seconds b node_id k = Ok r)).
  { intros us Hus.
    pose proof (wait_micros_nonneg c b node_id k us Hinit Hus) as H0.
    assert (Hs : Core.wait_seconds b node_id k
                 = Py.int_div_float us Py.f1000000).
    { unfold Core.wait_seconds. rewrite Hus. reflexivity. }
    split; [exact H0 |]. split; [exact Hs |].
    intros Hlt. rewrite Hs. apply int_div_float_exact. lia. }
  split; [| split].
  - intros e He. unfold Core.wait_seconds. rewrite He. reflexivity.
  - exact Hexact.
  - intros Hbase Hcap Hk'.
    pose proof (init_Ok_inv c b Hinit) as (Hc & _ & Hms & HM & _).
    assert (HM0 : Core.slots_M (Core.cfg b) <> 0) by (rewrite Hc; lia).
    assert (HB : Core.base_us b k = Ok (50000 * 2 ^ k)).
    { apply base_us_default; [rewrite Hc; exact Hbase | lia]. }
    assert (HC : Core.cap_us b = Ok 10000000).
    { apply cap_us_default. rewrite Hc; exact Hcap. }
    pose proof (wait_micros_eq b node_id k _ _ _ HB HC
                  (offset_slot_eq b node_id k HM0)) as Hw.
    match type of Hw with
    | _ = Ok ?u => set (us := u) in *
    end.
    assert (Hlt : us < 2 ^ 53).
    { unfold us. change (2 ^ 53) with 9007199254740992. lia. }
    destruct (Hexact us Hw) as (_ & _ & Hq).
    destruct (Hq Hlt) as (Heq & r & Hr).
    exists us, r. split; [exact Hw |]. split; [exact Hlt |].
    split; [exact Hr |]. rewrite <- Heq. exact Hr.
Qed.

Lemma wait_seconds_exact_below_2_53_witness :
  Core.init default_config = Ok default_engine
  /\ 0 <= 4 /\ 0 <= 0
  /\ ((forall e, Core.wait_micros default_engine 4 0 = Raise e ->
                 Core.wait_seconds default_engine 4 0 = Raise e)
      /\ (forall us, Core.wait_micros default_engine 4 0 = Ok us ->
            0 <= us
            /\ Core.wait_seconds default_engine 4 0
               = Py.int_div_float us Py.f1000000
            /\ (us < 2 ^ 53 ->
                Core.wait_seconds default_engine 4 0
                = int_truediv us 1000000
                /\ exists r, Core.wait_seconds default_engine 4 0 = Ok r))
      /\ (Core.base_seconds default_config = f0_05 ->
          Core.cap_seconds default_config = f10 ->
          0 <= 1008 ->
          exists us r,
            Core.wait_micros default_engine 4 0 = Ok us
            /\ us < 2 ^ 53
            /\ Core.wait_seconds default_engine 4 0 = Ok r
            /\ int_truediv us 1000000 = Ok r)).
Proof.
  assert (H1 : Core.init default_config = Ok default_engine) by reflexivity.
  assert (H2 : 0 <= 4) by lia.
  assert (H3 : 0 <= 0) by lia.
  split; [exact H1 |]. split; [exact H2 |]. split; [exact H3 |].
  exact (wait_seconds_exact_below_2_53
           default_config default_engine 4 0 H1 H2 H3).
Defined.
